(** * classtime front-end: course list controllers

    Shallow embedding of
      src/angular_flask/static/scripts/controllers/fastCourseListCtrl.js
    (the [fastCourseListCtrl] and [accordionCtrl] controllers) and of
      src/angular_flask/static/scripts/services/courseFactory.js.

    JavaScript objects used as dictionaries are finite maps ([gmap]) keyed
    by property name, arrays are lists, asynchronous requests are entries
    of an explicit list of pending requests whose responses are delivered
    one at a time in any order (the event loop runs each callback to
    completion). *)

From Stdlib Require Import ZArith Lia Ascii.
From stdpp Require Import gmap strings list fin_maps.

(** ** [fastCourseListCtrl]: paginated fetch and grouping *)
Module FastCourseList.

(** A course of the [courses-min] listing, with the properties the
    controller reads. *)
Record Course := {
  faculty : string;
  subject : string;
  asString : string
}.

#[global] Instance Course_eq_dec : EqDecision Course.
Proof. solve_decision. Defined.

(** One page of the listing, [angular.fromJson(data)]. *)
Record PageListing := {
  objects : list Course;
  total_pages : Z
}.

(** [subjectBin]: faculty name -> subject name -> display strings. The
    keys of a map are the own properties of the object. [__proto__] is
    never an own property: it is the accessor of the prototype, which
    every object inherits. Assigning an object to it replaces the
    prototype and reading it gives the prototype, so the map keeps under
    that name the prototype that an assignment has put there. *)
Abbreviation Bin := (gmap string (gmap string (list string))).

(** [obj.hasOwnProperty(k)] and, when it holds, [obj[k]]. *)
Definition ownProperty {V} (m : gmap string V) (k : string) : option V :=
  if decide (k = "__proto__") then None else m !! k.

(** [subjectBin.hasOwnProperty] is no function any more: [subjectBin]
    has an own property of that name (a faculty), or its prototype was
    replaced by an object which has one (a subject of the faculty
    [__proto__]). *)
Definition methodLost (subjectBin : Bin) : bool :=
  match subjectBin !! "hasOwnProperty",
        subjectBin !! "__proto__" ≫= (fun proto => proto !! "hasOwnProperty") with
  | None, None => false
  | _, _ => true
  end.

(** Body of the [forEach] callback, lines 32-47; [None] when a call of
    [hasOwnProperty] throws [TypeError], on [subjectBin] or on
    [subjectBin[course.faculty]], whose own property of that name is a
    list of courses. *)
Definition insertCourse (course : Course) (subjectBin : Bin) : option Bin :=
  if methodLost subjectBin then None
  else
    match ownProperty subjectBin (faculty course) with
    | Some fac =>
        match fac !! "hasOwnProperty" with
        | Some _ => None
        | None =>
            match ownProperty fac (subject course) with
            | Some courses =>
                Some (<[faculty course :=
                          <[subject course := courses ++ [asString course]]> fac]> subjectBin)
            | None =>
                Some (<[faculty course :=
                          <[subject course := [asString course]]> fac]> subjectBin)
            end
        end
    | None =>
        Some (<[faculty course := <[subject course := [asString course]]> ∅]> subjectBin)
    end.

(** [objects.forEach(...)]: an exception ends the loop, and what the
    courses before it have changed stays. *)
Fixpoint mergeCourses (courses : list Course) (subjectBin : Bin) : Bin :=
  match courses with
  | [] => subjectBin
  | course :: rest =>
      match insertCourse course subjectBin with
      | Some subjectBin' => mergeCourses rest subjectBin'
      | None => subjectBin
      end
  end.

(** [pageListing.objects.forEach(...)]. *)
Definition mergePage (pl : PageListing) (subjectBin : Bin) : Bin :=
  mergeCourses (objects pl) subjectBin.

(** [subjectBin[f][s]], the empty list when either key is absent. *)
Definition coursesAt (f s : string) (subjectBin : Bin) : list string :=
  default [] (subjectBin !! f ≫= fun fac => fac !! s).

(** The two success callbacks that a [getCoursesPage] promise can carry. *)
Inductive handler := OnFirstPage | OnDataPage.

#[global] Instance handler_eq_dec : EqDecision handler.
Proof. solve_decision. Defined.

(** Controller variables, with the log of [getCoursesPage] calls and the
    requests whose response has not arrived yet. *)
Record State := {
  var_subjectBin : Bin;
  var_pageListing : option PageListing;
  var_page : Z;
  var_total_pages : option Z;
  requested : list Z;
  pending : list (Z * handler);
  alerts : nat
}.

(** [fastCourseFactory.getCoursesPage(p).success(h).error(...)]. *)
Definition getCoursesPage (p : Z) (h : handler) (st : State) : State :=
  {| var_subjectBin := var_subjectBin st;
     var_pageListing := var_pageListing st;
     var_page := var_page st;
     var_total_pages := var_total_pages st;
     requested := requested st ++ [p];
     pending := pending st ++ [(p, h)];
     alerts := alerts st |}.

Definition set_page (p : Z) (st : State) : State :=
  {| var_subjectBin := var_subjectBin st;
     var_pageListing := var_pageListing st;
     var_page := p;
     var_total_pages := var_total_pages st;
     requested := requested st;
     pending := pending st;
     alerts := alerts st |}.

(** [page < (total_pages + 1)]; the comparison is false while
    [total_pages] is undefined. *)
Definition loopCondition (st : State) : bool :=
  match var_total_pages st with
  | Some n => (var_page st <? n + 1)%Z
  | None => false
  end.

(** The [while] loop of lines 25-54, by the number of iterations left. *)
Fixpoint requestLoop (fuel : nat) (st : State) : State :=
  match fuel with
  | O => st
  | S fuel' =>
      if loopCondition st then
        let st1 := getCoursesPage (var_page st) OnDataPage st in
        requestLoop fuel' (set_page (var_page st1 + 1) st1)
      else st
  end.

(** Success callback of the first request, lines 19-55. *)
Definition onFirstPage (data : PageListing) (st : State) : State :=
  let st1 :=
    {| var_subjectBin := var_subjectBin st;
       var_pageListing := Some data;
       var_page := var_page st;
       var_total_pages := Some (total_pages data);
       requested := requested st;
       pending := pending st;
       alerts := alerts st |} in
  requestLoop (Z.to_nat (total_pages data + 1 - var_page st1)) st1.

(** Success callback of the requests of the loop, lines 27-48. *)
Definition onDataPage (data : PageListing) (st : State) : State :=
  {| var_subjectBin := mergePage data (var_subjectBin st);
     var_pageListing := Some data;
     var_page := var_page st;
     var_total_pages := var_total_pages st;
     requested := requested st;
     pending := pending st;
     alerts := alerts st |}.

(** Both error callbacks: [$window.alert(...)]. *)
Definition onError (st : State) : State :=
  {| var_subjectBin := var_subjectBin st;
     var_pageListing := var_pageListing st;
     var_page := var_page st;
     var_total_pages := var_total_pages st;
     requested := requested st;
     pending := pending st;
     alerts := S (alerts st) |}.

Definition set_pending (l : list (Z * handler)) (st : State) : State :=
  {| var_subjectBin := var_subjectBin st;
     var_pageListing := var_pageListing st;
     var_page := var_page st;
     var_total_pages := var_total_pages st;
     requested := requested st;
     pending := l;
     alerts := alerts st |}.

(** State when the controller function returns: lines 7-18. *)
Definition init : State :=
  {| var_subjectBin := ∅;
     var_pageListing := None;
     var_page := 1;
     var_total_pages := None;
     requested := [1%Z];
     pending := [(1%Z, OnFirstPage)];
     alerts := 0 |}.

(** The back end: the page served for a page number, [None] when the
    request fails. *)
Definition Server := Z -> option PageListing.

(** The response to the [i]-th pending request arrives. *)
Definition deliver (server : Server) (i : nat) (st : State) : option State :=
  match pending st !! i with
  | None => None
  | Some (p, h) =>
      let st' := set_pending (delete i (pending st)) st in
      Some match server p with
           | Some data =>
               match h with
               | OnFirstPage => onFirstPage data st'
               | OnDataPage => onDataPage data st'
               end
           | None => onError st'
           end
  end.

(** A run delivers responses in the order of a schedule; each entry is a
    position in the list of pending requests. *)
Fixpoint run (server : Server) (sched : list nat) (st : State) : option State :=
  match sched with
  | [] => Some st
  | i :: sched' =>
      match deliver server i st with
      | Some st' => run server sched' st'
      | None => None
      end
  end.

(** Courses of page [p] as served, none when the request fails. *)
Definition pageObjects (server : Server) (p : Z) : list Course :=
  match server p with
  | Some data => objects data
  | None => []
  end.

(** All courses of pages [1..n]. *)
Definition catalogue (server : Server) (n : Z) : list Course :=
  flat_map (pageObjects server) (seqZ 1 n).

(** Number of times [x] is in [l]. *)
Definition occurrences {A} `{EqDecision A} (x : A) (l : list A) : nat :=
  length (filter (fun y => y = x) l).

(** Courses of the requests still pending. *)
Definition pendingObjects (server : Server) (st : State) : list Course :=
  flat_map (fun r => pageObjects server (fst r)) (pending st).

(** States of the controller once the first response has been handled
    with [total_pages = n]: page 1 was requested first, then the pages 1
    to [n], and only requests of the loop are pending. *)
Definition fetched (server : Server) (n : Z) (st : State) : Prop :=
  requested st = 1%Z :: seqZ 1 n ∧
  var_total_pages st = Some n ∧
  Forall (fun r => snd r = OnDataPage) (pending st) ∧
  map fst (pending st) ⊆+ seqZ 1 n.

(** The scenario page of the specification. *)
Definition scenarioPage : PageListing :=
  {| objects := [ {| faculty := "Science"; subject := "CMPUT"; asString := "CMPUT 101" |} ];
     total_pages := 1 |}.

Definition scenarioBin : Bin :=
  {[ "Science" := {[ "CMPUT" := ["CMPUT 101"] ]} ]}.

Definition scenarioServer : Server :=
  fun p => if decide (p = 1%Z) then Some scenarioPage else None.

(** A catalogue of three pages with one course each. *)
Definition threePages : Server :=
  fun p =>
    Some {| objects := [ {| faculty := "Science"; subject := "CMPUT";
                            asString := if decide (p = 1%Z) then "CMPUT 101"
                                        else if decide (p = 2%Z) then "CMPUT 201"
                                        else "CMPUT 301" |} ];
            total_pages := 3 |}.

(** A name that is neither the accessor [__proto__] nor the method
    [hasOwnProperty]. *)
Definition plainKey (k : string) : Prop := k ≠ "__proto__" ∧ k ≠ "hasOwnProperty".

Definition plainCourse (c : Course) : Prop :=
  plainKey (faculty c) ∧ plainKey (subject c).

Definition plainBin (subjectBin : Bin) : Prop :=
  ∀ f fac, subjectBin !! f = Some fac →
    plainKey f ∧ ∀ s courses, fac !! s = Some courses → plainKey s.

(** The courses of the pages 1 to [n] have plain faculties and subjects. *)
Definition plainPages (server : Server) (n : Z) : Prop :=
  Forall plainCourse (catalogue server n).

(** What the callback assigns when both calls of [hasOwnProperty]
    succeed and test the keys of the maps. *)
Definition grouped (course : Course) (subjectBin : Bin) : Bin :=
  match subjectBin !! faculty course with
  | Some fac =>
      match fac !! subject course with
      | Some courses =>
          <[faculty course := <[subject course := courses ++ [asString course]]> fac]> subjectBin
      | None =>
          <[faculty course := <[subject course := [asString course]]> fac]> subjectBin
      end
  | None =>
      <[faculty course := <[subject course := [asString course]]> ∅]> subjectBin
  end.

(** Number of entries of [l] with faculty [f], subject [s] and display
    string [a]. *)
Definition listedAs (f s a : string) (l : list Course) : nat :=
  length (filter (fun c => faculty c = f ∧ subject c = s ∧ asString c = a) l).

(** The pages among 1 to [n] that list the course [c]. *)
Definition pagesListing (server : Server) (n : Z) (c : Course) : list Z :=
  filter (fun p => c ∈ pageObjects server p) (seqZ 1 n).

Definition cmput101 : Course :=
  {| faculty := "Science"; subject := "CMPUT"; asString := "CMPUT 101" |}.

(** One page that lists a course twice. *)
Definition listedTwice : Server :=
  fun _ => Some {| objects := [cmput101; cmput101]; total_pages := 1 |}.

(** One page with a course of a faculty named [hasOwnProperty] before
    another course. *)
Definition methodNamed : Server :=
  fun _ => Some {| objects := [ {| faculty := "hasOwnProperty"; subject := "INT D";
                                   asString := "INT D 100" |};
                                cmput101 ];
                   total_pages := 1 |}.

(** *** Filter watcher, lines 65-80

    [$timeout] is a queue of timers, each a promise (a number here) with
    the time at which it is due; time is in milliseconds. Every timer of
    this controller runs the same callback, line 78. *)

Definition delay : Z := 500.

Record FilterState := {
  filterText : string;
  tempFilterText : string;
  filterTextTimeout : option nat;
  timers : list (nat * Z);
  next_timer : nat;
  published : list (Z * string)
}.

(** [published] records, for each run of the timer callback, the time at
    which it ran and the value it assigned to [$scope.filterText]. *)
Definition filterInit : FilterState :=
  {| filterText := "";
     tempFilterText := "";
     filterTextTimeout := None;
     timers := [];
     next_timer := 0;
     published := [] |}.

(** [$timeout.cancel(promise)]: the timer leaves the queue; nothing
    happens when it already ran. *)
Definition timeoutCancel (promise : nat) (st : FilterState) : FilterState :=
  {| filterText := filterText st;
     tempFilterText := tempFilterText st;
     filterTextTimeout := filterTextTimeout st;
     timers := filter (fun tm => fst tm ≠ promise) (timers st);
     next_timer := next_timer st;
     published := published st |}.

(** The listener of [$scope.$watch('searchBox', ...)], called at time
    [now] with the new value. *)
Definition watchSearchBox (now : Z) (val : string) (st : FilterState) : FilterState :=
  let st1 :=
    match filterTextTimeout st with
    | Some promise => timeoutCancel promise st
    | None => st
    end in
  {| filterText := filterText st1;
     tempFilterText := val;
     filterTextTimeout := Some (next_timer st1);
     timers := timers st1 ++ [(next_timer st1, now + delay)%Z];
     next_timer := S (next_timer st1);
     published := published st1 |}.

(** A due timer runs its callback: [$scope.filterText = tempFilterText]. *)
Definition fire (st : FilterState) (tm : nat * Z) : FilterState :=
  {| filterText := tempFilterText st;
     tempFilterText := tempFilterText st;
     filterTextTimeout := filterTextTimeout st;
     timers := filter (fun tm' => fst tm' ≠ fst tm) (timers st);
     next_timer := next_timer st;
     published := published st ++ [(snd tm, tempFilterText st)] |}.

(** Time passes up to [t]: the timers due by then run, in the order of
    the queue (all delays are equal, so that is the order in which they
    are due). *)
Definition advance (t : Z) (st : FilterState) : FilterState :=
  fold_left fire (filter (fun tm => (snd tm ≤ t)%Z) (timers st)) st.

(** The input changes at the given times, then time passes up to
    [tEnd]. A timer due at the very time of a change runs before it. *)
Fixpoint runFilter (changes : list (Z * string)) (tEnd : Z) (st : FilterState) : FilterState :=
  match changes with
  | [] => advance tEnd st
  | (t, val) :: rest => runFilter rest tEnd (watchSearchBox t val (advance t st))
  end.

(** What a debouncer publishes, in the words of the specification: the
    value of a change, [delay] after it, when no other change came
    before that time. *)
Fixpoint quietPublishes (changes : list (Z * string)) (tEnd : Z) : list (Z * string) :=
  match changes with
  | [] => []
  | (t, val) :: rest =>
      let next := match rest with [] => tEnd | (t', _) :: _ => t' end in
      (if decide (t + delay ≤ next)%Z then [((t + delay)%Z, val)] else [])
        ++ quietPublishes rest tEnd
  end.

(** Times of the changes never go back, and the run lasts at least until
    the last of them. *)
Fixpoint timeline (changes : list (Z * string)) (tEnd : Z) : Prop :=
  match changes with
  | [] => True
  | (t, _) :: rest =>
      (t ≤ match rest with [] => tEnd | (t', _) :: _ => t' end)%Z ∧ timeline rest tEnd
  end.

(** Display strings of the courses of [l] with faculty [f] and subject
    [s], in the order of [l]. *)
Definition groupOf (f s : string) (l : list Course) : list string :=
  map asString (filter (fun c => faculty c = f ∧ subject c = s) l).

(** [subjectBin[f]] has the own property [s]. *)
Definition hasGroup (f s : string) (subjectBin : Bin) : Prop :=
  is_Some (subjectBin !! f ≫= fun fac => fac !! s).

(** No faculty without a subject and no subject without a course. *)
Definition wellGrouped (subjectBin : Bin) : Prop :=
  ∀ f fac, subjectBin !! f = Some fac →
    fac ≠ ∅ ∧ ∀ s courses, fac !! s = Some courses → courses ≠ [].

(** The request for page [p] fails. *)
Definition failed (server : Server) (p : Z) : bool :=
  match server p with
  | Some _ => false
  | None => true
  end.

(** Changes that each come less than [delay] after the one before. *)
Fixpoint burst (changes : list (Z * string)) : Prop :=
  match changes with
  | [] => True
  | (t, _) :: rest =>
      match rest with
      | [] => True
      | (t', _) :: _ => (t ≤ t' < t + delay)%Z
      end ∧ burst rest
  end.

End FastCourseList.

(** ** [accordionCtrl]: structured listing, sorting, details, schedule *)
Module Accordion.

(** A course object of the listing; the controller reads [asString]. *)
Record Course := {
  asString : string
}.

#[global] Instance Course_eq_dec : EqDecision Course.
Proof. solve_decision. Defined.

(** *** [compareByCourseNumber], lines 224-237 *)

(** [\d]: an ASCII digit. *)
Definition isDigit (c : ascii) : bool :=
  (48 <=? N_of_ascii c)%N && (N_of_ascii c <=? 57)%N.

(** Longest prefix of digits: what the greedy [\d+] consumes. *)
Fixpoint takeDigits (s : string) : string :=
  match s with
  | EmptyString => EmptyString
  | String c s' => if isDigit c then String c (takeDigits s') else EmptyString
  end.

(** [s.match(/\d+/)]: [null] when [s] has no digit, else the match array.
    The pattern has no group, so the array has the single element [m[0]],
    the leftmost longest run of digits; it is kept as that string. *)
Fixpoint matchDigits (s : string) : option string :=
  match s with
  | EmptyString => None
  | String c s' => if isDigit c then Some (takeDigits s) else matchDigits s'
  end.

(** [x < y] on two strings: by code units, a proper prefix is smaller. *)
Fixpoint stringLess (x y : string) : bool :=
  match x, y with
  | _, EmptyString => false
  | EmptyString, String _ _ => true
  | String a x', String b y' =>
      if (N_of_ascii a <? N_of_ascii b)%N then true
      else if (N_of_ascii b <? N_of_ascii a)%N then false
      else stringLess x' y'
  end.

(** Value of a run of digits read in base ten. *)
Definition digitsValue (s : string) : Z :=
  fold_left (fun acc c => (10 * acc + (Z.of_N (N_of_ascii c) - 48))%Z)
            (String.list_ascii_of_string s) 0%Z.

(** [aNum < bNum] on two results of [match]. An array is converted with
    [toString], which for a one-element array is that element, and two
    strings are compared as strings. [null] is converted to the number 0,
    and then the other side is converted to a number as well. *)
Definition matchLess (aNum bNum : option string) : bool :=
  match aNum, bNum with
  | Some x, Some y => stringLess x y
  | Some x, None => (digitsValue x <? 0)%Z
  | None, Some y => (0 <? digitsValue y)%Z
  | None, None => false
  end.

Definition compareByCourseNumber (a b : Course) : Z :=
  let aNum := matchDigits (asString a) in
  let bNum := matchDigits (asString b) in
  if matchLess aNum bNum then (-1)%Z
  else if matchLess bNum aNum then 1%Z
  else 0%Z.

(** [array.sort(compare)], as the insertion sort that keeps equal
    elements in their order. *)
Fixpoint insertBy (compare : Course -> Course -> Z) (x : Course) (l : list Course) : list Course :=
  match l with
  | [] => [x]
  | y :: l' => if (0 <? compare y x)%Z then x :: y :: l' else y :: insertBy compare x l'
  end.

Definition sortBy (compare : Course -> Course -> Z) (l : list Course) : list Course :=
  fold_left (fun acc x => insertBy compare x acc) l [].

(** A list is in the order of a comparator when no element compares
    greater than the next one. *)
Fixpoint orderedBy (compare : Course -> Course -> Z) (l : list Course) : Prop :=
  match l with
  | [] => True
  | x :: l' =>
      match l' with
      | [] => True
      | y :: _ => (compare x y ≤ 0)%Z
      end ∧ orderedBy compare l'
  end.

(** A run of digits found first in a string, in the words of the
    specification: only characters that are no digits before it, and no
    digit right after it. *)
Fixpoint allChars (P : ascii -> bool) (s : string) : bool :=
  match s with
  | EmptyString => true
  | String c s' => P c && allChars P s'
  end.

Definition allDigits (s : string) : Prop := allChars isDigit s = true.

Definition noDigit (s : string) : Prop :=
  allChars (fun c => negb (isDigit c)) s = true.

Definition firstDigitRun (s run : string) : Prop :=
  ∃ before after,
    s = (before +:+ run +:+ after) ∧
    noDigit before ∧ allDigits run ∧ run ≠ EmptyString ∧
    match after with
    | EmptyString => True
    | String c _ => isDigit c = false
    end.

(** Comparison of two character arrays in lexicographic order, as an
    integer of the sign a comparator returns. *)
Definition lexicographic (x y : string) : Z :=
  match String.compare x y with
  | Lt => (-1)%Z
  | Eq => 0%Z
  | Gt => 1%Z
  end.

Definition cmput2 : Course := {| asString := "CMPUT 2" |}.
Definition cmput10 : Course := {| asString := "CMPUT 10" |}.

(** *** [insertIntoSubjectBin], lines 115-144 *)

Record Subject := {
  subjectName : string;
  courses : list Course
}.

(** A faculty group of the structured listing; the entries of
    [$scope.subjectBin] have the same two properties. *)
Record FacultyGroup := {
  faculty : string;
  subjects : list Subject
}.

Inductive exn := TypeError.

(** [subjectBinObject.push(Ssubject)], line 125. Every entry of
    [$scope.subjectBin] is an object literal of line 133, with the
    properties [faculty] and [subjects] and no [push]: the call throws. *)
Definition entryPush (subjectBinObject : FacultyGroup) (Ssubject : Subject)
  : exn + FacultyGroup :=
  inl TypeError.

(** [SFacultyGroup.subjects.forEach(...)] of lines 124-126. *)
Fixpoint pushAll (subjectBinObject : FacultyGroup) (Ssubjects : list Subject)
  : exn + FacultyGroup :=
  match Ssubjects with
  | [] => inr subjectBinObject
  | Ssubject :: rest =>
      match entryPush subjectBinObject Ssubject with
      | inl e => inl e
      | inr o => pushAll o rest
      end
  end.

(** [$scope.subjectBin.forEach(...)] of lines 120-129, threading the
    [inserted] flag; an exception leaves the loop. *)
Fixpoint insertExisting (SFacultyGroup : FacultyGroup) (subjectBin : list FacultyGroup)
    (inserted : bool) : exn + (list FacultyGroup * bool) :=
  match subjectBin with
  | [] => inr ([], inserted)
  | subjectBinObject :: rest =>
      if decide (faculty subjectBinObject = faculty SFacultyGroup) then
        match pushAll subjectBinObject (subjects SFacultyGroup) with
        | inl e => inl e
        | inr o =>
            match insertExisting SFacultyGroup rest true with
            | inl e => inl e
            | inr (rest', ins) => inr (o :: rest', ins)
            end
        end
      else
        match insertExisting SFacultyGroup rest inserted with
        | inl e => inl e
        | inr (rest', ins) => inr (subjectBinObject :: rest', ins)
        end
  end.

Definition insertIntoSubjectBin (SFacultyGroup : FacultyGroup)
    (subjectBin : list FacultyGroup) : exn + list FacultyGroup :=
  match insertExisting SFacultyGroup subjectBin false with
  | inl e => inl e
  | inr (subjectBin', inserted) =>
      if inserted then inr subjectBin'
      else
        let newObj :=
          {| faculty := faculty SFacultyGroup;
             subjects := fold_left (fun acc subject => acc ++ [subject])
                                   (subjects SFacultyGroup) [] |} in
        inr (subjectBin' ++ [newObj])
  end.

(** What the merge is meant to do to an entry of the same faculty. *)
Definition appendSubjects (SFacultyGroup entry : FacultyGroup) : FacultyGroup :=
  if decide (faculty entry = faculty SFacultyGroup)
  then {| faculty := faculty entry;
          subjects := subjects entry ++ subjects SFacultyGroup |}
  else entry.

Definition scienceCMPUT : FacultyGroup :=
  {| faculty := "Science";
     subjects := [ {| subjectName := "CMPUT"; courses := [ {| asString := "CMPUT 101" |} ] |} ] |}.

Definition scienceMATH : FacultyGroup :=
  {| faculty := "Science";
     subjects := [ {| subjectName := "MATH"; courses := [ {| asString := "MATH 100" |} ] |} ] |}.

Definition artsENGL : FacultyGroup :=
  {| faculty := "Arts";
     subjects := [ {| subjectName := "ENGL"; courses := [ {| asString := "ENGL 102" |} ] |} ] |}.

Definition engineeringECE : FacultyGroup :=
  {| faculty := "Engineering";
     subjects := [ {| subjectName := "ECE"; courses := [ {| asString := "ECE 210" |} ] |} ] |}.

(** *** [loadMore], lines 260-274 *)

Record DetailState := {
  description : gmap Z string;
  detailRequests : list Z;
  detailPending : list Z;
  detailAlerts : nat
}.

Definition detailInit : DetailState :=
  {| description := ∅; detailRequests := []; detailPending := []; detailAlerts := 0 |}.

Definition loadMore (courseIdNumber : Z) (st : DetailState) : DetailState :=
  match description st !! courseIdNumber with
  | Some _ => st
  | None =>
      {| description := description st;
         detailRequests := detailRequests st ++ [courseIdNumber];
         detailPending := detailPending st ++ [courseIdNumber];
         detailAlerts := detailAlerts st |}
  end.

(** The [i]-th pending [getDetails] request is answered: with
    [Some courseDescription] the success callback runs, with [None] the
    error callback. *)
Definition deliverDetail (i : nat) (response : option string) (st : DetailState)
  : option DetailState :=
  match detailPending st !! i with
  | None => None
  | Some courseIdNumber =>
      Some match response with
           | Some courseDescription =>
               {| description := <[courseIdNumber := courseDescription]> (description st);
                  detailRequests := detailRequests st;
                  detailPending := delete i (detailPending st);
                  detailAlerts := detailAlerts st |}
           | None =>
               {| description := description st;
                  detailRequests := detailRequests st;
                  detailPending := delete i (detailPending st);
                  detailAlerts := S (detailAlerts st) |}
           end
  end.

(** *** [addToSchedule], lines 307-320 *)

(** The argument of [addToSchedule]: a primitive, or a reference to a
    course object of the heap. *)
Inductive value :=
  | VString (s : string)
  | VNumber (n : Z)
  | VObject (ref : nat).

#[global] Instance value_eq_dec : EqDecision value.
Proof. solve_decision. Defined.

(** [v === w]: primitives by value, objects by reference. *)
Definition strictEquals (v w : value) : bool :=
  match v, w with
  | VString s, VString t => bool_decide (s = t)
  | VNumber n, VNumber m => bool_decide (n = m)
  | VObject r, VObject r' => bool_decide (r = r')
  | _, _ => false
  end.

(** [array.indexOf(searchElement)]. *)
Fixpoint indexOfFrom (k : Z) (searchElement : value) (array : list value) : Z :=
  match array with
  | [] => (-1)%Z
  | x :: rest =>
      if strictEquals x searchElement then k
      else indexOfFrom (k + 1)%Z searchElement rest
  end.

Definition indexOf (searchElement : value) (array : list value) : Z :=
  indexOfFrom 0 searchElement array.

Record Schedule := {
  addedCourses : list value;
  shoppingCartSize : Z
}.

Definition scheduleInit : Schedule :=
  {| addedCourses := []; shoppingCartSize := 0 |}.

Definition addToSchedule (course : value) (st : Schedule) : Schedule :=
  if decide (indexOf course (addedCourses st) = (-1)%Z) then
    {| addedCourses := addedCourses st ++ [course];
       shoppingCartSize := shoppingCartSize st + 1 |}
  else st.

(** Equality of two courses by value: equal primitives, or references to
    objects with the same content. *)
Definition valueEqual (heap : gmap nat Course) (v w : value) : Prop :=
  match v, w with
  | VObject r, VObject r' => is_Some (heap !! r) ∧ heap !! r = heap !! r'
  | _, _ => v = w
  end.

(** A sequence of calls of [addToSchedule]. *)
Definition addAllToSchedule (courses : list value) (st : Schedule) : Schedule :=
  fold_left (fun st course => addToSchedule course st) courses st.

(** Two course objects of the same content at two places of the heap. *)
Definition twoCopies : gmap nat Course :=
  {[ 0 := {| asString := "CMPUT 101" |}; 1 := {| asString := "CMPUT 101" |} ]}.

(** *** [parsePage], lines 146-151 *)

(** The structured listing: faculty groups, and the number of pages. *)
Record PageListing := {
  objects : list FacultyGroup;
  total_pages : Z
}.

(** [objects.forEach(insertIntoSubjectBin)] on [$scope.subjectBin]. An
    exception ends the loop; the groups inserted before it stay in the
    array, which is returned with the exception. *)
Fixpoint insertAll (groups : list FacultyGroup) (subjectBin : list FacultyGroup)
  : list FacultyGroup * option exn :=
  match groups with
  | [] => (subjectBin, None)
  | SFacultyGroup :: rest =>
      match insertIntoSubjectBin SFacultyGroup subjectBin with
      | inl e => (subjectBin, Some e)
      | inr subjectBin' => insertAll rest subjectBin'
      end
  end.

Definition parsePage (pageListing : PageListing) (subjectBin : list FacultyGroup)
  : list FacultyGroup * option exn :=
  insertAll (objects pageListing) subjectBin.

(** *** Calls of [loadMore] and responses, in any order *)

Inductive detailEvent :=
  | Load (courseIdNumber : Z)
  | Respond (i : nat) (response : option string).

Definition detailStep (ev : detailEvent) (st : DetailState) : option DetailState :=
  match ev with
  | Load courseIdNumber => Some (loadMore courseIdNumber st)
  | Respond i response => deliverDetail i response st
  end.

Fixpoint runDetail (events : list detailEvent) (st : DetailState) : option DetailState :=
  match events with
  | [] => Some st
  | ev :: rest =>
      match detailStep ev st with
      | Some st' => runDetail rest st'
      | None => None
      end
  end.

(** *** Start-up timer and search box watcher, lines 276-300

    The queue of [$timeout] holds timers of two kinds here, and both
    assign a text to [$scope.filterText] when they run; the queue is
    kept in the order in which the timers are due, a timer registered
    later after those due at the same time. *)

Record Timer := {
  promise : nat;
  due : Z;
  assigns : string
}.

Record WatcherState := {
  filterText : option string;
  filterTextTimeout : option nat;
  timers : list Timer;
  next_promise : nat
}.

Fixpoint enqueue (tm : Timer) (queue : list Timer) : list Timer :=
  match queue with
  | [] => [tm]
  | x :: queue' =>
      if decide (due x ≤ due tm)%Z then x :: enqueue tm queue' else tm :: x :: queue'
  end.

(** The timer of line 280, registered when the controller is created,
    at time 0; [$scope.filterText] is not set before it runs. *)
Definition startupTimer : Timer :=
  {| promise := 0; due := 1000; assigns := "" |}.

Definition watcherInit : WatcherState :=
  {| filterText := None;
     filterTextTimeout := None;
     timers := [startupTimer];
     next_promise := 1 |}.

Section Watcher.

(** [String.prototype.toUpperCase]. *)
Variable toUpperCase : string -> string.

(** The listener of line 289, called at time [now]: a value that is no
    string is ignored; for a string the pending timer of the watcher is
    cancelled and a new one registered, due 200 ms later. *)
Definition watchSearchBox (now : Z) (val : value) (st : WatcherState) : WatcherState :=
  match val with
  | VString text =>
      let queue :=
        match filterTextTimeout st with
        | Some p => filter (fun tm => promise tm ≠ p) (timers st)
        | None => timers st
        end in
      {| filterText := filterText st;
         filterTextTimeout := Some (next_promise st);
         timers := enqueue {| promise := next_promise st;
                              due := now + 200;
                              assigns := toUpperCase text |} queue;
         next_promise := S (next_promise st) |}
  | _ => st
  end.

(** A due timer runs: it assigns its text and leaves the queue. *)
Definition fireTimer (st : WatcherState) (tm : Timer) : WatcherState :=
  {| filterText := Some (assigns tm);
     filterTextTimeout := filterTextTimeout st;
     timers := filter (fun tm' => promise tm' ≠ promise tm) (timers st);
     next_promise := next_promise st |}.

(** Time passes up to [t]: the timers due by then run in the order of
    the queue. *)
Definition advanceTo (t : Z) (st : WatcherState) : WatcherState :=
  fold_left fireTimer (filter (fun tm => (due tm ≤ t)%Z) (timers st)) st.

Fixpoint runWatcher (changes : list (Z * value)) (tEnd : Z) (st : WatcherState)
  : WatcherState :=
  match changes with
  | [] => advanceTo tEnd st
  | (t, val) :: rest => runWatcher rest tEnd (watchSearchBox t val (advanceTo t st))
  end.

End Watcher.

(** The last change whose value is a string. *)
Fixpoint lastString (changes : list (Z * value)) : option (Z * string) :=
  match changes with
  | [] => None
  | (t, val) :: rest =>
      match lastString rest with
      | Some x => Some x
      | None => match val with VString text => Some (t, text) | _ => None end
      end
  end.

(** The times of the changes never go back. *)
Fixpoint inOrder (changes : list (Z * value)) : Prop :=
  match changes with
  | [] => True
  | (t, _) :: rest =>
      match rest with
      | [] => True
      | (t', _) :: _ => (t ≤ t')%Z
      end ∧ inOrder rest
  end.

(** The queue with the start-up timer or not, and with a timer of the
    watcher or not. *)
Definition queueOf (startup : bool) (watch : option Timer) : list Timer :=
  match startup, watch with
  | true, Some tm => if decide (1000 ≤ due tm)%Z then [startupTimer; tm] else [tm; startupTimer]
  | true, None => [startupTimer]
  | false, Some tm => [tm]
  | false, None => []
  end.

(** What [$scope.filterText] is once the timers of the queue have run. *)
Definition settled (shown : option string) (startup : bool) (watch : option Timer)
  : option string :=
  match startup, watch with
  | true, Some tm => Some (if decide (1000 ≤ due tm)%Z then assigns tm else "")
  | true, None => Some ""
  | false, Some tm => Some (assigns tm)
  | false, None => shown
  end.

(** A state whose queue is [queueOf startup watch], with the promise of
    the watcher's timer in [filterTextTimeout]. *)
Definition queued (startup : bool) (watch : option Timer) (st : WatcherState) : Prop :=
  timers st = queueOf startup watch ∧
  next_promise st ≠ 0 ∧
  match watch with
  | Some tm => filterTextTimeout st = Some (promise tm) ∧ promise tm ≠ 0
  | None => filterTextTimeout st ≠ Some 0
  end.

End Accordion.

(** ** Properties of [fastCourseListCtrl] *)
Module FastCourseListSpec.
Import FastCourseList.

Section Grouping.

Lemma ownProperty_plain {V} (m : gmap string V) (k : string) :
  plainKey k → ownProperty m k = m !! k.
Proof. intros [Hk _]. unfold ownProperty. by rewrite decide_False. Qed.

Lemma plainBin_methodLost (bin : Bin) : plainBin bin → methodLost bin = false.
Proof.
  intros Hb. unfold methodLost.
  destruct (bin !! "hasOwnProperty") as [fac|] eqn:Hm.
  { destruct (Hb _ _ Hm) as [[_ Hk] _]. done. }
  destruct (bin !! "__proto__") as [proto|] eqn:Hp; [|done].
  destruct (Hb _ _ Hp) as [[Hk _] _]. done.
Qed.

(** On plain keys no call throws and the callback assigns by the keys of
    the maps. *)
Lemma insertCourse_plain (c : Course) (bin : Bin) :
  plainBin bin → plainCourse c → insertCourse c bin = Some (grouped c bin).
Proof.
  intros Hb [Hf Hs]. unfold insertCourse, grouped.
  rewrite (plainBin_methodLost bin Hb), (ownProperty_plain bin _ Hf).
  destruct (bin !! faculty c) as [fac|] eqn:Hfac; [|done].
  destruct (fac !! "hasOwnProperty") as [cs|] eqn:Hm.
  { destruct (Hb _ _ Hfac) as [_ Hin]. destruct (Hin _ _ Hm) as [_ Hk]. done. }
  rewrite (ownProperty_plain fac _ Hs). by destruct (fac !! subject c).
Qed.

Lemma plainBin_grouped (c : Course) (bin : Bin) :
  plainBin bin → plainCourse c → plainBin (grouped c bin).
Proof.
  intros Hb [Hf Hs] f fac'. unfold grouped.
  assert (Hins : ∀ (fac : gmap string (list string)) cs,
            (∀ s courses, fac !! s = Some courses → plainKey s) →
            ∀ s courses, <[subject c := cs]> fac !! s = Some courses → plainKey s).
  { intros fac cs Hfac s courses. destruct (decide (subject c = s)) as [<-|Hne].
    - done.
    - rewrite lookup_insert_ne by done. apply Hfac. }
  destruct (bin !! faculty c) as [fac|] eqn:Hfac.
  - destruct (Hb _ _ Hfac) as [_ Hin].
    destruct (fac !! subject c) as [cs|];
      (destruct (decide (faculty c = f)) as [<-|Hne];
       [rewrite lookup_insert_eq; intros [= <-]; split; [done|by apply Hins]
       |rewrite lookup_insert_ne by done; apply Hb]).
  - destruct (decide (faculty c = f)) as [<-|Hne].
    + rewrite lookup_insert_eq. intros [= <-]. split; [done|]. apply Hins.
      intros s courses. by rewrite lookup_empty.
    + rewrite lookup_insert_ne by done. apply Hb.
Qed.

Lemma mergeCourses_plain (l : list Course) : ∀ bin : Bin,
  plainBin bin → Forall plainCourse l →
  mergeCourses l bin = fold_left (fun b c => grouped c b) l bin ∧
  plainBin (mergeCourses l bin).
Proof.
  induction l as [|c l IH]; intros bin Hb Hl; simpl; [done|].
  apply Forall_cons in Hl as [Hc Hl].
  rewrite (insertCourse_plain c bin Hb Hc).
  apply IH; [by apply plainBin_grouped|done].
Qed.

Lemma coursesAt_grouped (f s : string) (c : Course) (bin : Bin) :
  coursesAt f s (grouped c bin) =
  coursesAt f s bin ++
    (if decide (faculty c = f ∧ subject c = s) then [asString c] else []).
Proof.
  unfold coursesAt, grouped.
  destruct (bin !! faculty c) as [fac|] eqn:Hf.
  - destruct (fac !! subject c) as [cs|] eqn:Hs.
    + destruct (decide (faculty c = f)) as [<-|Hne].
      * rewrite lookup_insert_eq, Hf. simpl.
        destruct (decide (subject c = s)) as [<-|Hne'].
        -- rewrite lookup_insert_eq, Hs. simpl.
           rewrite decide_True by done. done.
        -- rewrite lookup_insert_ne by done.
           rewrite decide_False by (intros [? ?]; done). by rewrite app_nil_r.
      * rewrite lookup_insert_ne by done.
        rewrite decide_False by (intros [? ?]; done). by rewrite app_nil_r.
    + destruct (decide (faculty c = f)) as [<-|Hne].
      * rewrite lookup_insert_eq, Hf. simpl.
        destruct (decide (subject c = s)) as [<-|Hne'].
        -- rewrite lookup_insert_eq, Hs. simpl.
           rewrite decide_True by done. done.
        -- rewrite lookup_insert_ne by done.
           rewrite decide_False by (intros [? ?]; done). by rewrite app_nil_r.
      * rewrite lookup_insert_ne by done.
        rewrite decide_False by (intros [? ?]; done). by rewrite app_nil_r.
  - destruct (decide (faculty c = f)) as [<-|Hne].
    + rewrite lookup_insert_eq, Hf. simpl.
      destruct (decide (subject c = s)) as [<-|Hne'].
      * rewrite lookup_insert_eq. simpl. rewrite decide_True by done. done.
      * rewrite lookup_insert_ne, lookup_empty by done.
        rewrite decide_False by (intros [? ?]; done). done.
    + rewrite lookup_insert_ne by done.
      rewrite decide_False by (intros [? ?]; done). by rewrite app_nil_r.
Qed.

Lemma coursesAt_fold (f s : string) (l : list Course) (bin : Bin) :
  coursesAt f s (fold_left (fun b c => grouped c b) l bin) =
  coursesAt f s bin ++ groupOf f s l.
Proof.
  unfold groupOf. revert bin. induction l as [|c l IH]; intros bin; simpl.
  - by rewrite app_nil_r.
  - rewrite IH, coursesAt_grouped, filter_cons.
    destruct (decide (faculty c = f ∧ subject c = s)); simpl.
    + by rewrite <- app_assoc.
    + by rewrite app_nil_r.
Qed.

(** Merging a page of plain courses into a structure of plain keys
    appends to each group the display strings of its courses. *)
Lemma coursesAt_mergePage (f s : string) (pl : PageListing) (bin : Bin) :
  plainBin bin → Forall plainCourse (objects pl) →
  coursesAt f s (mergePage pl bin) = coursesAt f s bin ++ groupOf f s (objects pl).
Proof.
  intros Hb Hl. unfold mergePage.
  rewrite (proj1 (mergeCourses_plain _ bin Hb Hl)). apply coursesAt_fold.
Qed.

Lemma occurrences_app {A} `{EqDecision A} (x : A) (l k : list A) :
  occurrences x (l ++ k) = occurrences x l + occurrences x k.
Proof. unfold occurrences. by rewrite filter_app, length_app. Qed.

Lemma occurrences_perm {A} `{EqDecision A} (x : A) (l k : list A) :
  l ≡ₚ k → occurrences x l = occurrences x k.
Proof. unfold occurrences. intros Hp. by rewrite Hp. Qed.

(** A display string is as often in the group of a list as the list has
    entries of that faculty, subject and display string. *)
Lemma occurrences_groupOf (f s a : string) (l : list Course) :
  occurrences a (groupOf f s l) = listedAs f s a l.
Proof.
  unfold occurrences, groupOf, listedAs. induction l as [|c l IH]; [done|].
  rewrite !filter_cons.
  destruct (decide (faculty c = f ∧ subject c = s)) as [[Hf Hs]|Hn].
  - simpl. rewrite filter_cons.
    destruct (decide (asString c = a)) as [Ha|Ha].
    + rewrite decide_True by done. simpl. by rewrite IH.
    + rewrite decide_False by (intros (_ & _ & ?); done). done.
  - rewrite decide_False by (intros (? & ? & _); by apply Hn). done.
Qed.

(** The two names on which the callback does not act as on a map. *)
Example faculty_proto_replaced :
  coursesAt "__proto__" "S"
    (mergeCourses [ {| faculty := "__proto__"; subject := "S"; asString := "A 1" |};
                    {| faculty := "__proto__"; subject := "S"; asString := "A 2" |} ] ∅)
  = ["A 2"].
Proof. by vm_compute. Qed.

Example faculty_hasOwnProperty_throws :
  mergeCourses [ {| faculty := "hasOwnProperty"; subject := "S"; asString := "A 1" |};
                 cmput101 ] ∅
  = {[ "hasOwnProperty" := {[ "S" := ["A 1"] ]} ]}.
Proof. by vm_compute. Qed.

End Grouping.

Section Fetching.

(** The loop requests the pages from [page] up to [total_pages], one
    after the other, and stops with its condition false. *)
Lemma requestLoop_spec (fuel : nat) : ∀ (st st' : State) (n : Z),
  var_total_pages st = Some n →
  fuel = Z.to_nat (n + 1 - var_page st) →
  requestLoop fuel st = st' →
  requested st' = requested st ++ seqZ (var_page st) (n + 1 - var_page st) ∧
  pending st' = pending st ++
    map (fun p => (p, OnDataPage)) (seqZ (var_page st) (n + 1 - var_page st)) ∧
  var_subjectBin st' = var_subjectBin st ∧
  var_total_pages st' = Some n ∧
  loopCondition st' = false.
Proof.
  induction fuel as [|fuel IH]; intros st st' n Hn Hfuel <-; simpl.
  - rewrite seqZ_nil by lia. simpl. rewrite !app_nil_r.
    repeat split; try done. unfold loopCondition. rewrite Hn.
    apply Z.ltb_ge. lia.
  - assert (Hlt : (var_page st < n + 1)%Z) by lia.
    assert (Hcond : loopCondition st = true).
    { unfold loopCondition. rewrite Hn. by apply Z.ltb_lt. }
    rewrite Hcond.
    set (st1 := set_page _ _).
    destruct (IH st1 (requestLoop fuel st1) n) as (Hr & Hp & Hb & Ht & Hc);
      [done|simpl; lia|done|].
    rewrite Hr, Hp, Hb, Ht, Hc. simpl.
    rewrite (seqZ_cons (var_page st)) by lia.
    replace (Z.pred (n + 1 - var_page st)) with (n + 1 - (var_page st + 1))%Z by lia.
    replace (Z.succ (var_page st)) with (var_page st + 1)%Z by lia.
    rewrite <- !app_assoc. simpl. done.
Qed.

Variable server : Server.

Lemma deliver_init (i : nat) (st : State) (data : PageListing) :
  server 1%Z = Some data →
  deliver server i init = Some st →
  i = 0 ∧ var_subjectBin st = ∅ ∧ fetched server (total_pages data) st.
Proof.
  intros Hs. unfold deliver. destruct i as [|i]; simpl; [|done].
  rewrite Hs. intros [= <-]. unfold onFirstPage.
  set (st1 := Build_State _ _ _ _ _ _ _).
  set (st2 := requestLoop _ st1).
  destruct (requestLoop_spec _ st1 st2 (total_pages data) eq_refl eq_refl eq_refl)
    as (Hr & Hp & Hb & Ht & _).
  clearbody st2. simpl in Hr, Hp, Hb, Ht.
  replace (total_pages data + 1 - 1)%Z with (total_pages data) in Hr, Hp by lia.
  split; [done|]. split; [done|].
  unfold fetched. rewrite Hr, Ht. repeat split; try done.
  - rewrite Hp. apply Forall_map. by apply Forall_true.
  - rewrite Hp, map_map. simpl. by rewrite map_id.
Qed.

Lemma deliver_init_failed (i : nat) (st : State) :
  server 1%Z = None →
  deliver server i init = Some st →
  requested st = [1%Z] ∧ pending st = [] ∧ var_subjectBin st = ∅.
Proof.
  intros Hs. unfold deliver. destruct i as [|i]; simpl; [|done].
  rewrite Hs. by intros [= <-].
Qed.

Lemma deliver_fetched (n : Z) (i : nat) (st st' : State) :
  fetched server n st →
  deliver server i st = Some st' →
  fetched server n st' ∧ length (pending st') < length (pending st).
Proof.
  intros (Hr & Ht & Hh & Hsub). unfold deliver.
  destruct (pending st !! i) as [[p h]|] eqn:Hi; [|done].
  intros [= <-].
  assert (h = OnDataPage) as ->.
  { rewrite Forall_lookup in Hh. apply (Hh _ _ Hi). }
  assert (Hperm : pending st ≡ₚ (p, OnDataPage) :: delete i (pending st)).
  { by apply delete_Permutation. }
  assert (Hlen : length (delete i (pending st)) < length (pending st)).
  { rewrite Hperm at 2. simpl. lia. }
  assert (Hh' : Forall (fun r => snd r = OnDataPage) (delete i (pending st))).
  { rewrite Hperm in Hh. by inversion Hh. }
  assert (Hsub' : map fst (delete i (pending st)) ⊆+ seqZ 1 n).
  { etrans; [|exact Hsub]. rewrite Hperm at 2. simpl. by apply submseteq_cons. }
  split; [|by destruct (server p)].
  by destruct (server p) as [data|]; unfold fetched; simpl.
Qed.

(** A run from a state of [fetched] stays there. *)
Lemma run_fetched (n : Z) (sched : list nat) : ∀ st st',
  fetched server n st → run server sched st = Some st' → fetched server n st'.
Proof.
  induction sched as [|i sched IH]; intros st st' Hf; simpl.
  - by intros [= <-].
  - destruct (deliver server i st) as [st1|] eqn:Hd; [|done].
    apply IH. by eapply deliver_fetched.
Qed.

(** Shape of every run from the start. *)
Lemma run_init (sched : list nat) (st : State) (data : PageListing) :
  server 1%Z = Some data →
  run server sched init = Some st →
  (sched = [] ∧ st = init) ∨ (sched ≠ [] ∧ fetched server (total_pages data) st).
Proof.
  intros Hs. destruct sched as [|i sched]; simpl.
  - intros [= <-]. by left.
  - destruct (deliver server i init) as [st1|] eqn:Hd; [|done].
    intros Hrun. right. split; [done|].
    eapply run_fetched; [|exact Hrun].
    by destruct (deliver_init _ _ _ Hs Hd) as (_ & _ & ?).
Qed.

(** Responses can always be delivered until none is pending. *)
Lemma run_drain (k : nat) : ∀ st,
  length (pending st) = k →
  Forall (fun r => snd r = OnDataPage) (pending st) →
  ∃ st', run server (replicate k 0) st = Some st' ∧ pending st' = [].
Proof.
  induction k as [|k IH]; intros st Hlen Hh; simpl.
  - exists st. split; [done|]. by apply nil_length_inv.
  - destruct (pending st) as [|[p h] rest] eqn:Hp; [done|].
    apply Forall_cons in Hh as [Hh1 Hh2]. simpl in Hh1. subst h.
    unfold deliver. rewrite Hp. simpl.
    apply IH; destruct (server p); simpl; try done; simpl in Hlen; lia.
Qed.

Lemma run_complete :
  ∃ sched st, run server sched init = Some st ∧ pending st = [].
Proof.
  destruct (server 1%Z) as [data|] eqn:Hs.
  - destruct (deliver server 0 init) as [st1|] eqn:Hd.
    + destruct (deliver_init _ _ _ Hs Hd) as (_ & _ & Hf).
      destruct Hf as (_ & _ & Hh & _).
      destruct (run_drain (length (pending st1)) st1 eq_refl Hh) as (st' & Hrun & Hp).
      exists (0 :: replicate (length (pending st1)) 0), st'. cbn [run].
      rewrite Hd. done.
    + unfold deliver in Hd. simpl in Hd. by rewrite Hs in Hd.
  - exists [0], (onError (set_pending [] init)). simpl. unfold deliver. simpl.
    rewrite Hs. done.
Qed.

End Fetching.

Lemma first_response (server : Server) (data : PageListing) (i : nat) (st : State) :
  server 1%Z = Some data →
  deliver server i init = Some st →
  var_subjectBin st = ∅ ∧ var_total_pages st = Some (total_pages data) ∧
  pending st = map (fun p => (p, OnDataPage)) (seqZ 1 (total_pages data)).
Proof.
  intros Hs Hd.
  destruct (deliver_init server i st data Hs Hd) as (-> & Hb & _).
  split; [done|].
  unfold deliver in Hd. simpl in Hd. rewrite Hs in Hd. injection Hd as <-.
  unfold onFirstPage.
  set (st1 := Build_State _ _ _ _ _ _ _).
  set (st2 := requestLoop _ st1).
  destruct (requestLoop_spec _ st1 st2 (total_pages data) eq_refl eq_refl eq_refl)
    as (_ & Hp & _ & Ht & _).
  split; [done|]. rewrite Hp. simpl.
  by replace (total_pages data + 1 - 1)%Z with (total_pages data) by lia.
Qed.

Section Arrival.

Variable server : Server.

Lemma groupOf_app (f s : string) (l k : list Course) :
  groupOf f s (l ++ k) = groupOf f s l ++ groupOf f s k.
Proof. unfold groupOf. by rewrite filter_app, map_app. Qed.

Lemma groupOf_perm (f s : string) (l k : list Course) :
  l ≡ₚ k → groupOf f s l ≡ₚ groupOf f s k.
Proof. intros Hp. unfold groupOf. apply Permutation_map. by rewrite Hp. Qed.

Lemma plainPages_page (n p : Z) :
  plainPages server n → p ∈ seqZ 1 n → Forall plainCourse (pageObjects server p).
Proof.
  unfold plainPages, catalogue. rewrite !Forall_forall. intros Hall Hp c Hc.
  apply Hall. apply list_elem_of_In, in_flat_map. exists p.
  split; by apply list_elem_of_In.
Qed.

(** Handling a response of the loop moves the courses of its page from
    the pending ones to the groups. *)
Lemma deliver_arrival (n : Z) (i : nat) (st st' : State) :
  plainPages server n →
  fetched server n st →
  plainBin (var_subjectBin st) →
  deliver server i st = Some st' →
  plainBin (var_subjectBin st') ∧
  (∃ l, var_subjectBin st' = fold_left (fun b c => grouped c b) l (var_subjectBin st)) ∧
  ∀ f s,
    coursesAt f s (var_subjectBin st') ++ groupOf f s (pendingObjects server st')
    ≡ₚ coursesAt f s (var_subjectBin st) ++ groupOf f s (pendingObjects server st).
Proof.
  intros Hplain (_ & _ & Hh & Hsub) Hb. unfold deliver.
  destruct (pending st !! i) as [[p h]|] eqn:Hi; [|done].
  intros [= <-].
  assert (h = OnDataPage) as ->.
  { rewrite Forall_lookup in Hh. apply (Hh _ _ Hi). }
  assert (Hin : p ∈ seqZ 1 n).
  { apply (elem_of_submseteq (map fst (pending st))); [|done].
    apply list_elem_of_In. change p with (fst (p, OnDataPage)).
    apply in_map, list_elem_of_In. by eapply list_elem_of_lookup_2. }
  pose proof (plainPages_page n p Hplain Hin) as Hpl.
  assert (Hperm : pendingObjects server st ≡ₚ
            pageObjects server p ++
            flat_map (fun r => pageObjects server (fst r)) (delete i (pending st))).
  { unfold pendingObjects.
    change (pageObjects server p)
      with ((fun r : Z * handler => pageObjects server (fst r)) (p, OnDataPage)).
    change (?g (p, OnDataPage) ++ flat_map ?g ?l) with (flat_map g ((p, OnDataPage) :: l)).
    apply Permutation_flat_map. by apply delete_Permutation. }
  assert (Hpo : pageObjects server p =
            match server p with Some d => objects d | None => [] end) by done.
  rewrite Hpo in Hpl, Hperm. clear Hpo.
  destruct (server p) as [data|]; unfold pendingObjects; simpl.
  - split; [by apply mergeCourses_plain|]. split.
    { exists (objects data). by apply mergeCourses_plain. }
    intros f s.
    rewrite (groupOf_perm f s _ _ Hperm), groupOf_app.
    rewrite coursesAt_mergePage by done. by rewrite <- app_assoc.
  - split; [done|]. split; [by exists []|]. intros f s.
    by rewrite (groupOf_perm f s _ _ Hperm), groupOf_app.
Qed.

Lemma run_arrival (n : Z) (sched : list nat) : ∀ st st',
  plainPages server n →
  fetched server n st →
  plainBin (var_subjectBin st) →
  run server sched st = Some st' →
  plainBin (var_subjectBin st') ∧
  ∀ f s,
    coursesAt f s (var_subjectBin st') ++ groupOf f s (pendingObjects server st')
    ≡ₚ coursesAt f s (var_subjectBin st) ++ groupOf f s (pendingObjects server st).
Proof.
  induction sched as [|i sched IH]; intros st st' Hplain Hf Hb; simpl.
  - by intros [= <-].
  - destruct (deliver server i st) as [st1|] eqn:Hd; [|done].
    intros Hrun.
    destruct (deliver_arrival n i st st1 Hplain Hf Hb Hd) as (Hb1 & _ & Hp1).
    destruct (IH st1 st' Hplain (proj1 (deliver_fetched server n i st st1 Hf Hd)) Hb1 Hrun)
      as [Hb' Hp'].
    split; [done|]. intros f s. by rewrite Hp', Hp1.
Qed.

Lemma first_pendingObjects (data : PageListing) (i : nat) (st : State) :
  server 1%Z = Some data →
  deliver server i init = Some st →
  pendingObjects server st = catalogue server (total_pages data).
Proof.
  intros Hs Hd.
  destruct (first_response server data i st Hs Hd) as (_ & _ & Hp).
  unfold pendingObjects, catalogue. rewrite Hp.
  by rewrite !flat_map_concat_map, map_map.
Qed.

Lemma plainBin_empty : plainBin ∅.
Proof. intros f fac. by rewrite lookup_empty. Qed.

(** With plain keys on the pages, the groups of a complete run hold the
    courses of the pages, in some order. *)
Lemma complete_groups (data : PageListing) (sched : list nat) (st : State)
    (f s : string) :
  server 1%Z = Some data →
  plainPages server (total_pages data) →
  run server sched init = Some st →
  pending st = [] →
  coursesAt f s (var_subjectBin st)
  ≡ₚ groupOf f s (catalogue server (total_pages data)).
Proof.
  intros Hs Hplain Hrun Hp.
  destruct sched as [|i sched]; simpl in Hrun; [by injection Hrun as <-|].
  destruct (deliver server i init) as [st1|] eqn:Hd; [|done].
  destruct (deliver_init server i st1 data Hs Hd) as (_ & Hb & Hf).
  assert (Hb1 : plainBin (var_subjectBin st1)) by (rewrite Hb; apply plainBin_empty).
  destruct (run_arrival _ sched st1 st Hplain Hf Hb1 Hrun) as [_ Hperm].
  specialize (Hperm f s).
  unfold pendingObjects at 1 in Hperm. rewrite Hp in Hperm. simpl in Hperm.
  rewrite app_nil_r in Hperm. rewrite Hperm.
  rewrite (first_pendingObjects data i st1 Hs Hd).
  unfold coursesAt. rewrite Hb, lookup_empty. done.
Qed.

End Arrival.

(** C2, as the code has it. When the courses of the fetched pages have
    faculties and subjects other than [__proto__] and [hasOwnProperty],
    and exactly one entry of these pages has the faculty, the subject
    and the display string of the course [c], that display string is
    exactly once in [subjectBin[faculty][subject]] once no response is
    pending, whatever the order in which the responses arrived. *)
Theorem course_grouped_once (server : Server) (data : PageListing)
    (sched : list nat) (st : State) (c : Course) :
  server 1%Z = Some data →
  plainPages server (total_pages data) →
  run server sched init = Some st →
  pending st = [] →
  listedAs (faculty c) (subject c) (asString c)
           (catalogue server (total_pages data)) = 1 →
  occurrences (asString c)
    (coursesAt (faculty c) (subject c) (var_subjectBin st)) = 1.
Proof.
  intros Hs Hplain Hrun Hp Hc.
  rewrite (occurrences_perm _ _ _
             (complete_groups server data sched st _ _ Hs Hplain Hrun Hp)).
  by rewrite occurrences_groupOf.
Qed.

(** Witness of C2: the second page of [threePages] arrives before the
    first and the third. *)
Lemma course_grouped_once_witness :
  match run threePages [0; 1; 0; 0] init with
  | Some st =>
      occurrences "CMPUT 101" (coursesAt "Science" "CMPUT" (var_subjectBin st)) = 1
  | None => False
  end.
Proof.
  destruct (run threePages [0; 1; 0; 0] init) as [st|] eqn:Hrun; [|by vm_compute in Hrun].
  apply (course_grouped_once threePages
           {| objects := [ {| faculty := "Science"; subject := "CMPUT";
                              asString := "CMPUT 101" |} ];
              total_pages := 3 |}
           [0; 1; 0; 0] st cmput101).
  - reflexivity.
  - unfold plainPages. vm_compute. repeat constructor; discriminate.
  - exact Hrun.
  - vm_compute in Hrun. injection Hrun as <-. reflexivity.
  - vm_compute. reflexivity.
Defined.

(** C2 as stated fails in two ways. A course that one page lists twice
    is on exactly one page and has its display string twice in its
    group. And a course listed once, after a course of a faculty named
    [hasOwnProperty], is never merged: its display string is not in its
    group at all. *)
Lemma course_on_one_page_not_once :
  (∃ st, run listedTwice [0; 0] init = Some st ∧ pending st = [] ∧
         pagesListing listedTwice 1 cmput101 = [1%Z] ∧
         occurrences "CMPUT 101" (coursesAt "Science" "CMPUT" (var_subjectBin st)) = 2) ∧
  (∃ st, run methodNamed [0; 0] init = Some st ∧ pending st = [] ∧
         pagesListing methodNamed 1 cmput101 = [1%Z] ∧
         occurrences cmput101 (catalogue methodNamed 1) = 1 ∧
         occurrences "CMPUT 101" (coursesAt "Science" "CMPUT" (var_subjectBin st)) = 0).
Proof.
  split.
  - eexists. split; [vm_compute; reflexivity|]. by vm_compute.
  - eexists. split; [vm_compute; reflexivity|]. by vm_compute.
Qed.

(** C3, as the code has it. The controller first requests page 1 alone;
    handling its response stores [total_pages] and merges nothing; and
    from then on the requests made are page 1 followed by the pages 1 to
    [total_pages], page 1 a second time among them. *)
Theorem pages_requested_after_first (server : Server) (data : PageListing) :
  server 1%Z = Some data →
  (requested init = [1%Z] ∧ pending init = [(1%Z, OnFirstPage)]) ∧
  (∀ i st, deliver server i init = Some st →
     var_subjectBin st = ∅ ∧ var_total_pages st = Some (total_pages data) ∧
     pending st = map (fun p => (p, OnDataPage)) (seqZ 1 (total_pages data))) ∧
  (∀ sched st, sched ≠ [] → run server sched init = Some st →
     requested st = 1%Z :: seqZ 1 (total_pages data)).
Proof.
  intros Hs. split; [done|]. split.
  - intros i st Hd. by apply (first_response server data i).
  - intros sched st Hne Hrun.
    destruct (run_init server sched st data Hs Hrun) as [[? _]|[_ Hf]]; [done|].
    by destruct Hf as (Hr & _).
Qed.

Lemma pages_requested_after_first_witness :
  match run threePages [0; 2] init with
  | Some st => requested st = [1; 1; 2; 3]%Z
  | None => False
  end.
Proof.
  destruct (run threePages [0; 2] init) as [st|] eqn:Hrun; [|by vm_compute in Hrun].
  refine (proj2 (proj2 (pages_requested_after_first threePages _ eq_refl))
            [0; 2] st _ Hrun).
  discriminate.
Defined.

(** C3 as stated fails: with three pages, page 1 is requested twice, so
    the requests after the first are not the pages 2 to 3. *)
Lemma page_one_requested_twice :
  ∃ st, run threePages [0; 0; 0; 0] init = Some st ∧ pending st = [] ∧
        requested st = [1; 1; 2; 3]%Z ∧
        occurrences 1%Z (requested st) = 2 ∧
        requested st ≠ 1%Z :: seqZ 2 2.
Proof.
  eexists. split; [vm_compute; reflexivity|]. simpl.
  repeat split; try done.
Qed.

(** C9. When page 1 is the page of the scenario, every run that leaves no
    response pending ends with
    [{"Science": {"CMPUT": ["CMPUT 101"]}}]. *)
Theorem scenario_grouped (server : Server) (sched : list nat) (st : State) :
  server 1%Z = Some scenarioPage →
  run server sched init = Some st →
  pending st = [] →
  var_subjectBin st = scenarioBin.
Proof.
  intros Hs Hrun Hp.
  destruct sched as [|i sched]; simpl in Hrun; [by injection Hrun as <-|].
  destruct (deliver server i init) as [st1|] eqn:Hd1; [|done].
  destruct (first_response server scenarioPage i st1 Hs Hd1) as (Hb1 & _ & Hp1).
  change (seqZ 1 (total_pages scenarioPage)) with [1%Z] in Hp1. simpl in Hp1.
  destruct sched as [|j sched]; simpl in Hrun.
  { injection Hrun as <-. by rewrite Hp1 in Hp. }
  unfold deliver in Hrun. rewrite Hp1 in Hrun.
  destruct j as [|j]; simpl in Hrun; [|done].
  rewrite Hs in Hrun.
  destruct sched as [|k sched]; simpl in Hrun.
  - injection Hrun as <-. simpl. rewrite Hb1. by vm_compute.
  - unfold deliver in Hrun. simpl in Hrun. done.
Qed.

Lemma scenario_grouped_witness :
  match run scenarioServer [0; 0] init with
  | Some st => var_subjectBin st = scenarioBin
  | None => False
  end.
Proof.
  destruct (run scenarioServer [0; 0] init) as [st|] eqn:Hrun; [|by vm_compute in Hrun].
  apply (scenario_grouped scenarioServer [0; 0] st eq_refl Hrun).
  vm_compute in Hrun. by injection Hrun as <-.
Defined.

Section Debounce.

Lemma advance_idle (t : Z) (st : FilterState) :
  timers st = [] → advance t st = st.
Proof. intros Ht. unfold advance. by rewrite Ht. Qed.

Lemma advance_early (t : Z) (st : FilterState) (id : nat) (due : Z) :
  timers st = [(id, due)] → (t < due)%Z → advance t st = st.
Proof.
  intros Ht Hlt. unfold advance. rewrite Ht, filter_cons.
  rewrite decide_False by (simpl; lia). done.
Qed.

Lemma advance_due (t : Z) (st : FilterState) (id : nat) (due : Z) :
  timers st = [(id, due)] → (due ≤ t)%Z → advance t st = fire st (id, due).
Proof.
  intros Ht Hle. unfold advance. rewrite Ht, filter_cons.
  rewrite decide_True by (simpl; lia). done.
Qed.

(** A change leaves exactly one timer in the queue, its own. *)
Lemma watchSearchBox_armed (now : Z) (val : string) (st : FilterState) :
  (timers st = [] ∨ ∃ id due, timers st = [(id, due)] ∧ filterTextTimeout st = Some id) →
  ∃ id, timers (watchSearchBox now val st) = [(id, (now + delay)%Z)] ∧
        filterTextTimeout (watchSearchBox now val st) = Some id ∧
        tempFilterText (watchSearchBox now val st) = val ∧
        published (watchSearchBox now val st) = published st.
Proof.
  intros Hq. unfold watchSearchBox.
  destruct Hq as [Ht|(id & due & Ht & Hf)].
  - destruct (filterTextTimeout st) as [promise|]; simpl; rewrite ?Ht; simpl;
      eexists; repeat split; eauto.
  - rewrite Hf. simpl. rewrite Ht, filter_cons. simpl.
    rewrite decide_False by (intros Hn; by apply Hn). simpl.
    eexists; repeat split; eauto.
Qed.

(** From a state with the timer of the change [(t, val)] in the queue,
    the run publishes what the quiet windows allow. *)
Lemma runFilter_armed (changes : list (Z * string)) (tEnd : Z) :
  ∀ (st : FilterState) (t : Z) (val : string) (id : nat),
    timers st = [(id, (t + delay)%Z)] →
    filterTextTimeout st = Some id →
    tempFilterText st = val →
    timeline ((t, val) :: changes) tEnd →
    published (runFilter changes tEnd st) =
    published st ++ quietPublishes ((t, val) :: changes) tEnd.
Proof.
  induction changes as [|[t' val'] rest IH]; intros st t val id Ht Hf Hv Htl.
  - simpl. destruct (decide (t + delay ≤ tEnd)%Z) as [Hle|Hgt].
    + rewrite (advance_due _ _ _ _ Ht Hle). simpl. by rewrite Hv.
    + rewrite (advance_early _ _ _ _ Ht) by lia. by rewrite app_nil_r.
  - cbn [runFilter]. destruct Htl as [Hle Htl].
    change (quietPublishes ((t, val) :: (t', val') :: rest) tEnd)
      with ((if decide (t + delay ≤ t')%Z then [((t + delay)%Z, val)] else [])
              ++ quietPublishes ((t', val') :: rest) tEnd).
    destruct (decide (t + delay ≤ t')%Z) as [Hd|Hd].
    + rewrite (advance_due _ _ _ _ Ht Hd).
      destruct (watchSearchBox_armed t' val' (fire st (id, (t + delay)%Z)))
        as (id' & Ht' & Hf' & Hv' & Hp').
      { left. simpl. rewrite Ht, filter_cons. simpl.
        rewrite decide_False by (intros Hn; by apply Hn). done. }
      rewrite (IH _ t' val' id' Ht' Hf' Hv' Htl), Hp'. simpl.
      rewrite Hv. by rewrite <- app_assoc.
    + rewrite (advance_early _ _ _ _ Ht) by lia.
      destruct (watchSearchBox_armed t' val' st) as (id' & Ht' & Hf' & Hv' & Hp').
      { right. eauto. }
      rewrite (IH _ t' val' id' Ht' Hf' Hv' Htl), Hp'. done.
Qed.

Lemma runFilter_published (changes : list (Z * string)) (tEnd : Z) :
  timeline changes tEnd →
  published (runFilter changes tEnd filterInit) = quietPublishes changes tEnd.
Proof.
  destruct changes as [|[t val] rest]; intros Htl; [done|].
  cbn [runFilter]. rewrite advance_idle by done.
  destruct (watchSearchBox_armed t val filterInit) as (id & Ht & Hf & Hv & Hp);
    [by left|].
  by rewrite (runFilter_armed rest tEnd _ t val id Ht Hf Hv Htl), Hp.
Qed.

End Debounce.

(** C5. With the delay of 500 ms and changes of the input at 0 ms and at
    100 ms, the timer of the first change is cancelled by the second,
    whose timer is then the only one in the queue; nothing is published
    before 600 ms, and by then exactly the value of the second change
    has been published, at 600 ms. In general a run publishes, for each
    change followed by no other change within the delay, its value at
    the end of the delay, and nothing else. *)
Theorem filter_debounce :
  (∀ v0 v1 : string,
     timers (watchSearchBox 0 v0 filterInit) = [(0, 500%Z)] ∧
     timers (watchSearchBox 100 v1 (advance 100 (watchSearchBox 0 v0 filterInit)))
       = [(1, 600%Z)]) ∧
  (∀ (v0 v1 : string) (tEnd : Z), (100 ≤ tEnd < 600)%Z →
     published (runFilter [(0%Z, v0); (100%Z, v1)] tEnd filterInit) = []) ∧
  (∀ (v0 v1 : string) (tEnd : Z), (600 ≤ tEnd)%Z →
     published (runFilter [(0%Z, v0); (100%Z, v1)] tEnd filterInit) = [(600%Z, v1)] ∧
     filterText (runFilter [(0%Z, v0); (100%Z, v1)] tEnd filterInit) = v1) ∧
  (∀ (changes : list (Z * string)) (tEnd : Z), timeline changes tEnd →
     published (runFilter changes tEnd filterInit) = quietPublishes changes tEnd).
Proof.
  split; [|split; [|split]].
  - intros v0 v1. split; [done|]. by vm_compute.
  - intros v0 v1 tEnd Ht. rewrite runFilter_published by (simpl; lia).
    cbn [quietPublishes]. unfold delay.
    repeat case_decide; (done || lia).
  - intros v0 v1 tEnd Ht. split.
    + rewrite runFilter_published by (simpl; lia).
      cbn [quietPublishes]. unfold delay.
      repeat case_decide; (done || lia).
    + cbn [runFilter]. rewrite (advance_idle 0 filterInit) by done.
      rewrite (advance_early 100 _ 0 500); [|done|lia].
      rewrite (advance_due tEnd _ 1 600); [done|by vm_compute|lia].
  - intros changes tEnd. apply runFilter_published.
Qed.

Lemma filter_debounce_witness :
  published (runFilter [(0%Z, "c"); (100%Z, "cm")] 500 filterInit) = [] ∧
  published (runFilter [(0%Z, "c"); (100%Z, "cm")] 1000 filterInit) = [(600%Z, "cm")] ∧
  published (runFilter [(0%Z, "c"); (700%Z, "cm")] 1000 filterInit)
    = quietPublishes [(0%Z, "c"); (700%Z, "cm")] 1000.
Proof.
  split; [|split].
  - apply (proj1 (proj2 filter_debounce) "c" "cm" 500%Z). lia.
  - apply (proj1 (proj2 (proj2 filter_debounce)) "c" "cm" 1000%Z). lia.
  - apply (proj2 (proj2 (proj2 filter_debounce))). simpl. lia.
Defined.

End FastCourseListSpec.

(** ** Properties of [accordionCtrl] *)
Module AccordionSpec.
Import Accordion.

Section Comparator.

#[local] Arguments isDigit : simpl never.

Lemma takeDigits_run (run after : string) :
  allDigits run →
  match after with EmptyString => True | String c _ => isDigit c = false end →
  takeDigits (run +:+ after) = run.
Proof.
  unfold allDigits. intros Hrun Hafter.
  induction run as [|c run IH]; simpl in *.
  - destruct after as [|c after]; [done|]. simpl. by rewrite Hafter.
  - apply andb_prop in Hrun as [Hc Hrun]. rewrite Hc. by rewrite IH.
Qed.

(** [match] finds the first run of digits of a string. *)
Lemma matchDigits_firstDigitRun (s run : string) :
  firstDigitRun s run → matchDigits s = Some run.
Proof.
  intros (before & after & -> & Hb & Hr & Hne & Ha).
  unfold noDigit in Hb.
  induction before as [|c before IH]; simpl in *.
  - destruct run as [|c run]; [done|].
    pose proof Hr as Hr'. unfold allDigits in Hr'. simpl in Hr'.
    apply andb_prop in Hr' as [Hc _].
    simpl. rewrite !Hc. do 2 f_equal. apply takeDigits_run; [|done].
    unfold allDigits in *. simpl in Hr. by rewrite Hc in Hr.
  - apply andb_prop in Hb as [Hc Hb]. apply negb_true_iff in Hc.
    rewrite Hc. by apply IH.
Qed.

Lemma takeDigits_split (s : string) :
  ∃ after,
    s = takeDigits s +:+ after ∧ allDigits (takeDigits s) ∧
    match after with EmptyString => True | String c _ => isDigit c = false end.
Proof.
  unfold allDigits. induction s as [|c s IH]; simpl.
  - by exists EmptyString.
  - destruct (isDigit c) eqn:Hc.
    + destruct IH as (after & Hs & Hd & Ha). exists after. simpl.
      rewrite Hc, Hd. split; [|done].
      change (String c (takeDigits s) +:+ after) with (String c (takeDigits s +:+ after)).
      by f_equal.
    + by exists (String c s).
Qed.

(** Every result of [match] is the first run of digits of the string, so
    each string with a digit has one. *)
Lemma firstDigitRun_matchDigits (s run : string) :
  matchDigits s = Some run → firstDigitRun s run.
Proof.
  induction s as [|c s IH]; simpl; [done|].
  destruct (isDigit c) eqn:Hc.
  - intros [= <-].
    destruct (takeDigits_split (String c s)) as (after & Hs & Hd & Ha).
    simpl in Hs, Hd. rewrite Hc in Hs, Hd.
    exists EmptyString, after. simpl. by rewrite <- Hs.
  - intros Hm. destruct (IH Hm) as (before & after & -> & Hb & Hr & Hne & Ha).
    exists (String c before), after. repeat split; try done.
    unfold noDigit in *. simpl. by rewrite Hc.
Qed.

(** The comparison of strings by code units is the lexicographic order
    of the library. *)
Lemma stringLess_compare (x : string) : ∀ y : string,
  lexicographic x y =
  if stringLess x y then (-1)%Z else if stringLess y x then 1%Z else 0%Z.
Proof.
  unfold lexicographic.
  induction x as [|a x IH]; intros [|b y]; simpl; try done.
  unfold Ascii.compare.
  destruct (N.compare_spec (N_of_ascii a) (N_of_ascii b)) as [Heq|Hlt|Hgt].
  - rewrite Heq, N.ltb_irrefl. apply IH.
  - apply N.ltb_lt in Hlt. by rewrite Hlt.
  - pose proof Hgt as Hgt'. apply N.ltb_lt in Hgt'. rewrite Hgt'.
    assert ((N_of_ascii a <? N_of_ascii b)%N = false) as ->; [|done].
    apply N.ltb_ge. lia.
Qed.

Lemma compareByCourseNumber_runs (a b : Course) (ra rb : string) :
  firstDigitRun (asString a) ra →
  firstDigitRun (asString b) rb →
  compareByCourseNumber a b = lexicographic ra rb.
Proof.
  intros Ha Hb. unfold compareByCourseNumber.
  rewrite (matchDigits_firstDigitRun _ _ Ha), (matchDigits_firstDigitRun _ _ Hb).
  simpl. by rewrite stringLess_compare.
Qed.

End Comparator.

(** C1. On two courses whose display strings have a run of digits, the
    comparator is the lexicographic comparison of the two first runs as
    strings of characters; "CMPUT 2" therefore compares greater than
    "CMPUT 10", though 2 is the smaller number, and sorting the two
    courses gives "CMPUT 10" before "CMPUT 2", from either order and
    for every way of sorting by this comparator. *)
Theorem compare_by_digit_run :
  (∀ (a b : Course) (ra rb : string),
     firstDigitRun (asString a) ra →
     firstDigitRun (asString b) rb →
     compareByCourseNumber a b = lexicographic ra rb) ∧
  (compareByCourseNumber cmput2 cmput10 = 1%Z ∧
   (digitsValue "2" < digitsValue "10")%Z) ∧
  (sortBy compareByCourseNumber [cmput2; cmput10] = [cmput10; cmput2] ∧
   sortBy compareByCourseNumber [cmput10; cmput2] = [cmput10; cmput2]) ∧
  (∀ l : list Course,
     l ≡ₚ [cmput2; cmput10] → orderedBy compareByCourseNumber l →
     map asString l = ["CMPUT 10"; "CMPUT 2"]).
Proof.
  split; [exact compareByCourseNumber_runs|].
  split; [by vm_compute|]. split; [by vm_compute|].
  intros l Hp Ho. symmetry in Hp.
  apply Permutation_length_2_inv in Hp as [->| ->]; [|done].
  simpl in Ho. destruct Ho as [Ho _]. by vm_compute in Ho.
Qed.

Lemma compare_by_digit_run_witness :
  compareByCourseNumber cmput2 cmput10 = lexicographic "2" "10" ∧
  map asString [cmput10; cmput2] = ["CMPUT 10"; "CMPUT 2"].
Proof.
  split.
  - apply (proj1 compare_by_digit_run cmput2 cmput10 "2" "10").
    + exists "CMPUT ", "". by vm_compute.
    + exists "CMPUT ", "". by vm_compute.
  - apply (proj2 (proj2 (proj2 compare_by_digit_run)) [cmput10; cmput2]).
    + apply perm_swap.
    + by vm_compute.
Defined.

Section RicherGrouping.

Lemma insertExisting_absent (g : FacultyGroup) (bin : list FacultyGroup) :
  ∀ inserted : bool,
    Forall (fun entry => faculty entry ≠ faculty g) bin →
    insertExisting g bin inserted = inr (bin, inserted).
Proof.
  induction bin as [|entry bin IH]; intros inserted Hall; simpl; [done|].
  apply Forall_cons in Hall as [Hne Hall].
  rewrite decide_False by done. by rewrite IH.
Qed.

Lemma fold_push (l acc : list Subject) :
  fold_left (fun acc subject => acc ++ [subject]) l acc = acc ++ l.
Proof.
  revert acc. induction l as [|x l IH]; intros acc; simpl.
  - by rewrite app_nil_r.
  - by rewrite IH, <- app_assoc.
Qed.

(** Case 2 of the merge: a faculty that is not in the structure is added
    at the end, with the subjects of its group. *)
Lemma insertIntoSubjectBin_new (g : FacultyGroup) (bin : list FacultyGroup) :
  Forall (fun entry => faculty entry ≠ faculty g) bin →
  insertIntoSubjectBin g bin =
  inr (bin ++ [ {| faculty := faculty g; subjects := subjects g |} ]).
Proof.
  intros Hall. unfold insertIntoSubjectBin.
  rewrite insertExisting_absent by done. by rewrite fold_push.
Qed.

(** Case 1 of the merge: as soon as an entry of the same faculty is met,
    the first subject of the group is pushed on the entry itself, which
    throws. *)
Lemma insertExisting_present (g : FacultyGroup) (bin : list FacultyGroup) :
  ∀ inserted : bool,
    Exists (fun entry => faculty entry = faculty g) bin →
    subjects g ≠ [] →
    insertExisting g bin inserted = inl TypeError.
Proof.
  induction bin as [|entry bin IH]; intros inserted Hex Hne.
  - by apply Exists_nil in Hex.
  - simpl. destruct (decide (faculty entry = faculty g)) as [Heq|Hneq].
    + destruct (subjects g) as [|Ssubject rest]; [done|]. done.
    + apply Exists_cons in Hex as [?|Hex]; [done|].
      by rewrite IH.
Qed.

Lemma insertIntoSubjectBin_existing (g : FacultyGroup) (bin : list FacultyGroup) :
  Exists (fun entry => faculty entry = faculty g) bin →
  subjects g ≠ [] →
  insertIntoSubjectBin g bin = inl TypeError.
Proof.
  intros Hex Hne. unfold insertIntoSubjectBin.
  by rewrite insertExisting_present.
Qed.

End RicherGrouping.

(** C4. Merging the group of the faculty "Science" with the subject
    "MATH" into a structure that has the entry of "Science" with the
    subject "CMPUT" throws [TypeError] and leaves no merged structure,
    where the claim has the entry end with both subjects; merging it
    into the empty structure appends the entry with its subjects. *)
Theorem insertIntoSubjectBin_existing_faculty_throws :
  insertIntoSubjectBin scienceMATH [scienceCMPUT] = inl TypeError ∧
  map (appendSubjects scienceMATH) [scienceCMPUT] =
    [ {| faculty := "Science";
         subjects := subjects scienceCMPUT ++ subjects scienceMATH |} ] ∧
  insertIntoSubjectBin scienceMATH [] = inr [scienceMATH].
Proof. by vm_compute. Qed.

Section Details.

Lemma loadMore_cached (courseIdNumber : Z) (st : DetailState) :
  is_Some (description st !! courseIdNumber) → loadMore courseIdNumber st = st.
Proof. intros [text Ht]. unfold loadMore. by rewrite Ht. Qed.

Lemma loadMore_missing (courseIdNumber : Z) (st : DetailState) :
  description st !! courseIdNumber = None →
  detailRequests (loadMore courseIdNumber st) = detailRequests st ++ [courseIdNumber] ∧
  detailPending (loadMore courseIdNumber st) = detailPending st ++ [courseIdNumber] ∧
  description (loadMore courseIdNumber st) = description st.
Proof. intros Hn. unfold loadMore. by rewrite Hn. Qed.

End Details.

(** C6, as the code has it. [loadMore] makes no request for an id that is
    in [description]. For an id that is not, a first call makes one
    request, and once that request has succeeded and its response has
    been handled the id is in [description] and a second call makes no
    further request. *)
Theorem loadMore_once_cached :
  (∀ (courseIdNumber : Z) (st : DetailState),
     is_Some (description st !! courseIdNumber) →
     loadMore courseIdNumber st = st) ∧
  (∀ (courseIdNumber : Z) (text : string) (st : DetailState),
     description st !! courseIdNumber = None →
     ∃ st1,
       deliverDetail (length (detailPending st)) (Some text) (loadMore courseIdNumber st)
         = Some st1 ∧
       description st1 !! courseIdNumber = Some text ∧
       detailRequests (loadMore courseIdNumber st1)
         = detailRequests st ++ [courseIdNumber]).
Proof.
  split; [exact loadMore_cached|].
  intros id text st Hn.
  destruct (loadMore_missing id st Hn) as (Hr & Hp & Hd).
  unfold deliverDetail. rewrite Hp.
  rewrite lookup_app_r by done. rewrite Nat.sub_diag. simpl.
  eexists. split; [done|]. simpl. rewrite lookup_insert_eq. split; [done|].
  rewrite loadMore_cached; [done|]. simpl. rewrite lookup_insert_eq. by eexists.
Qed.

Lemma loadMore_once_cached_witness :
  loadMore 7 {| description := {[ 7%Z := "Intro" ]}; detailRequests := [7%Z];
                detailPending := []; detailAlerts := 0 |}
  = {| description := {[ 7%Z := "Intro" ]}; detailRequests := [7%Z];
       detailPending := []; detailAlerts := 0 |} ∧
  ∃ st1,
    deliverDetail 0 (Some "Intro") (loadMore 7 detailInit) = Some st1 ∧
    description st1 !! 7%Z = Some "Intro" ∧
    detailRequests (loadMore 7 st1) = [7%Z].
Proof.
  split.
  - apply (proj1 loadMore_once_cached). exists "Intro". reflexivity.
  - apply (proj2 loadMore_once_cached 7%Z "Intro" detailInit). reflexivity.
Defined.

(** C6 as stated fails: two calls in sequence, the second before the
    response to the first has arrived, make two requests. *)
Lemma loadMore_twice_two_requests :
  detailRequests (loadMore 7 (loadMore 7 detailInit)) = [7%Z; 7%Z] ∧
  length (detailRequests (loadMore 7 (loadMore 7 detailInit))) ≠ 1.
Proof. split; [by vm_compute|]. by vm_compute. Qed.

(** C8. When a request for the details of a course fails, [description]
    is unchanged and an alert is shown; if the id was not in
    [description] it is still not there, and a next call of [loadMore]
    for it makes a request again. *)
Theorem loadMore_failure_keeps_cache (i : nat) (courseIdNumber : Z) (st : DetailState) :
  detailPending st !! i = Some courseIdNumber →
  ∃ st',
    deliverDetail i None st = Some st' ∧
    description st' = description st ∧
    detailAlerts st' = S (detailAlerts st) ∧
    (description st !! courseIdNumber = None →
       description st' !! courseIdNumber = None ∧
       detailRequests (loadMore courseIdNumber st')
         = detailRequests st' ++ [courseIdNumber]).
Proof.
  intros Hi. unfold deliverDetail. rewrite Hi. eexists. split; [done|]. simpl.
  split; [done|]. split; [done|]. intros Hn. split; [done|].
  unfold loadMore. simpl. by rewrite Hn.
Qed.

Lemma loadMore_failure_keeps_cache_witness :
  ∃ st',
    deliverDetail 0 None (loadMore 7 detailInit) = Some st' ∧
    description st' = ∅ ∧
    detailAlerts st' = 1 ∧
    (description (loadMore 7 detailInit) !! 7%Z = None →
       description st' !! 7%Z = None ∧
       detailRequests (loadMore 7 st') = detailRequests st' ++ [7%Z]).
Proof.
  apply (loadMore_failure_keeps_cache 0 7%Z (loadMore 7 detailInit)).
  reflexivity.
Defined.

Section ScheduleList.

Lemma strictEquals_eq (v w : value) : strictEquals v w = true ↔ v = w.
Proof.
  destruct v, w; simpl; rewrite ?bool_decide_eq_true; split; congruence.
Qed.

Lemma indexOfFrom_found (x : value) (l : list value) : ∀ k : Z,
  x ∈ l → (k ≤ indexOfFrom k x l)%Z.
Proof.
  induction l as [|y l IH]; intros k Hin; [by apply elem_of_nil in Hin|].
  simpl. destruct (strictEquals y x) eqn:Heq; [lia|].
  apply elem_of_cons in Hin as [->|Hin].
  - assert (strictEquals y y = true) by by apply strictEquals_eq. congruence.
  - specialize (IH (k + 1)%Z Hin). lia.
Qed.

Lemma indexOfFrom_absent (x : value) (l : list value) : ∀ k : Z,
  x ∉ l → indexOfFrom k x l = (-1)%Z.
Proof.
  induction l as [|y l IH]; intros k Hnin; [done|].
  simpl. apply not_elem_of_cons in Hnin as [Hne Hnin].
  destruct (strictEquals y x) eqn:Heq.
  - apply strictEquals_eq in Heq. congruence.
  - by apply IH.
Qed.

(** [indexOf] is -1 exactly when no element is strictly equal. *)
Lemma indexOf_absent (x : value) (l : list value) :
  indexOf x l = (-1)%Z ↔ x ∉ l.
Proof.
  split.
  - intros Hi Hin. pose proof (indexOfFrom_found x l 0 Hin) as Hle.
    unfold indexOf in Hi. lia.
  - apply indexOfFrom_absent.
Qed.

Lemma addToSchedule_present (course : value) (st : Schedule) :
  course ∈ addedCourses st → addToSchedule course st = st.
Proof.
  intros Hin. unfold addToSchedule.
  rewrite decide_False; [done|]. rewrite indexOf_absent. by intros Hn.
Qed.

Lemma addToSchedule_absent (course : value) (st : Schedule) :
  course ∉ addedCourses st →
  addToSchedule course st =
  {| addedCourses := addedCourses st ++ [course];
     shoppingCartSize := shoppingCartSize st + 1 |}.
Proof.
  intros Hnin. unfold addToSchedule.
  rewrite decide_True; [done|]. by rewrite indexOf_absent.
Qed.

Lemma addToSchedule_counter (course : value) (st : Schedule) :
  shoppingCartSize st = Z.of_nat (length (addedCourses st)) →
  shoppingCartSize (addToSchedule course st)
    = Z.of_nat (length (addedCourses (addToSchedule course st))).
Proof.
  intros Hinv. destruct (decide (course ∈ addedCourses st)) as [Hin|Hnin].
  - by rewrite addToSchedule_present.
  - rewrite addToSchedule_absent by done. simpl. rewrite length_app. simpl. lia.
Qed.

Lemma addAllToSchedule_counter (courses : list value) : ∀ st : Schedule,
  shoppingCartSize st = Z.of_nat (length (addedCourses st)) →
  shoppingCartSize (addAllToSchedule courses st)
    = Z.of_nat (length (addedCourses (addAllToSchedule courses st))).
Proof.
  induction courses as [|course courses IH]; intros st Hinv; [done|].
  apply IH. by apply addToSchedule_counter.
Qed.

End ScheduleList.

(** C7, as the code has it. Membership is tested with strict equality:
    when an element of the list is strictly equal to the course (the
    same primitive, or the same object), [addToSchedule] changes neither
    the list nor the counter; and adding the same course twice to the
    empty list gives a list of length 1 and the counter 1. *)
Theorem addToSchedule_idempotent :
  (∀ (course : value) (st : Schedule),
     (∃ x, x ∈ addedCourses st ∧ strictEquals x course = true) →
     addToSchedule course st = st) ∧
  (∀ course : value,
     addToSchedule course (addToSchedule course scheduleInit)
     = {| addedCourses := [course]; shoppingCartSize := 1 |}).
Proof.
  split.
  - intros course st (x & Hin & Heq). apply strictEquals_eq in Heq as ->.
    by apply addToSchedule_present.
  - intros course.
    rewrite (addToSchedule_absent course scheduleInit) by apply not_elem_of_nil.
    rewrite addToSchedule_present; [done|]. simpl. by apply list_elem_of_singleton.
Qed.

Lemma addToSchedule_idempotent_witness :
  addToSchedule (VObject 0) {| addedCourses := [VObject 0]; shoppingCartSize := 1 |}
  = {| addedCourses := [VObject 0]; shoppingCartSize := 1 |}.
Proof.
  apply (proj1 addToSchedule_idempotent).
  exists (VObject 0). split; [apply list_elem_of_singleton|]; reflexivity.
Defined.

(** C7 as stated fails: a course object equal by value to one of the
    list, but another object, is added, and the counter goes up. *)
Lemma value_equal_course_added_again :
  valueEqual twoCopies (VObject 0) (VObject 1) ∧
  addToSchedule (VObject 1) (addToSchedule (VObject 0) scheduleInit)
    = {| addedCourses := [VObject 0; VObject 1]; shoppingCartSize := 2 |} ∧
  addToSchedule (VObject 1) (addToSchedule (VObject 0) scheduleInit)
    ≠ addToSchedule (VObject 0) scheduleInit.
Proof.
  split; [|split].
  - split; [by eexists|]. by vm_compute.
  - by vm_compute.
  - by vm_compute.
Qed.

(** C10. After every sequence of calls of [addToSchedule] from the
    initial state, the counter is the length of the list. *)
Theorem shoppingCartSize_is_length (courses : list value) :
  shoppingCartSize (addAllToSchedule courses scheduleInit)
  = Z.of_nat (length (addedCourses (addAllToSchedule courses scheduleInit))).
Proof. by apply addAllToSchedule_counter. Qed.

End AccordionSpec.

(** ** Further properties of [fastCourseListCtrl] *)
Module FastCourseListMore.
Import FastCourseList.
Import FastCourseListSpec.

Section Merging.

Lemma plainBin_scenario : plainBin scenarioBin.
Proof.
  unfold scenarioBin. intros f fac Hf.
  apply lookup_singleton_Some in Hf as [<- <-]. split; [split; discriminate|].
  intros s cs Hs. apply lookup_singleton_Some in Hs as [<- <-]. split; discriminate.
Qed.

Lemma hasGroup_grouped (f s : string) (c : Course) (bin : Bin) :
  hasGroup f s (grouped c bin) ↔
  hasGroup f s bin ∨ (faculty c = f ∧ subject c = s).
Proof.
  unfold hasGroup, grouped.
  destruct (decide (faculty c = f)) as [<-|Hf].
  - destruct (bin !! faculty c) as [fac|] eqn:Hfac; simpl.
    + destruct (fac !! subject c) as [cs|] eqn:Hcs;
        rewrite lookup_insert_eq; simpl;
        (destruct (decide (subject c = s)) as [<-|Hs];
         [rewrite lookup_insert_eq, ?Hcs; split; [intros _; by right|intros _; by eexists]
         |rewrite lookup_insert_ne by done; split; [by left|intros [?|[_ ?]]; done]]).
    + rewrite lookup_insert_eq. simpl.
      destruct (decide (subject c = s)) as [<-|Hs].
      * rewrite lookup_insert_eq. split; [intros _; by right|intros _; by eexists].
      * rewrite lookup_insert_ne, lookup_empty by done.
        split; [intros [? ?]; done|intros [[? ?]|[_ ?]]; done].
  - destruct (bin !! faculty c) as [fac|] eqn:Hfac;
      [destruct (fac !! subject c) as [cs|] eqn:Hcs|];
      rewrite lookup_insert_ne by done;
      (split; [by left|intros [?|[? _]]; done]).
Qed.

Lemma hasGroup_fold (f s : string) (l : list Course) : ∀ bin : Bin,
  hasGroup f s (fold_left (fun b c => grouped c b) l bin) ↔
  hasGroup f s bin ∨ ∃ c, c ∈ l ∧ faculty c = f ∧ subject c = s.
Proof.
  induction l as [|c l IH]; intros bin; simpl.
  - split; [by left|]. intros [?|(c & Hc & _)]; [done|]. by apply elem_of_nil in Hc.
  - rewrite IH, hasGroup_grouped. split.
    + intros [[?|[? ?]]|(c' & Hc' & ?)].
      * by left.
      * right. exists c. split; [by left|done].
      * right. exists c'. split; [by right|done].
    + intros [?|(c' & Hc' & Hf & Hs)]; [by left; left|].
      apply elem_of_cons in Hc' as [->|Hc'].
      * left. by right.
      * right. by exists c'.
Qed.

Lemma wellGrouped_grouped (c : Course) (bin : Bin) :
  wellGrouped bin → wellGrouped (grouped c bin).
Proof.
  intros Hw f fac'. unfold grouped.
  destruct (bin !! faculty c) as [fac|] eqn:Hfac.
  - destruct (Hw _ _ Hfac) as [Hne Hcs].
    destruct (fac !! subject c) as [cs|] eqn:Hs;
      (destruct (decide (faculty c = f)) as [<-|Hf];
       [rewrite lookup_insert_eq; intros [= <-]; split;
        [apply insert_non_empty
        |intros s' cs'; destruct (decide (subject c = s')) as [<-|Hs'];
         [rewrite lookup_insert_eq; intros [= <-] Habs;
          apply (f_equal length) in Habs; rewrite ?length_app in Habs;
          simpl in Habs; lia
         |rewrite lookup_insert_ne by done; apply Hcs]]
       |rewrite lookup_insert_ne by done; apply Hw]).
  - destruct (decide (faculty c = f)) as [<-|Hf].
    + rewrite lookup_insert_eq. intros [= <-]. split; [apply insert_non_empty|].
      intros s' cs'. destruct (decide (subject c = s')) as [<-|Hs'].
      * rewrite lookup_insert_eq. by intros [= <-].
      * rewrite lookup_insert_ne, lookup_empty by done. done.
    + rewrite lookup_insert_ne by done. apply Hw.
Qed.

Lemma wellGrouped_fold (l : list Course) : ∀ bin : Bin,
  wellGrouped bin → wellGrouped (fold_left (fun b c => grouped c b) l bin).
Proof.
  induction l as [|c l IH]; intros bin Hw; simpl; [done|].
  apply IH. by apply wellGrouped_grouped.
Qed.

Lemma run_wellGrouped (server : Server) (n : Z) (sched : list nat) : ∀ st st',
  plainPages server n →
  fetched server n st →
  plainBin (var_subjectBin st) →
  wellGrouped (var_subjectBin st) →
  run server sched st = Some st' →
  wellGrouped (var_subjectBin st').
Proof.
  induction sched as [|i sched IH]; intros st st' Hplain Hf Hb Hw; simpl.
  - by intros [= <-].
  - destruct (deliver server i st) as [st1|] eqn:Hd; [|done].
    destruct (deliver_arrival server n i st st1 Hplain Hf Hb Hd) as (Hb1 & [l Hl] & _).
    apply IH; [done|by eapply deliver_fetched|done|].
    rewrite Hl. by apply wellGrouped_fold.
Qed.

End Merging.

(** Merging a page whose courses have faculties and subjects other than
    [__proto__] and [hasOwnProperty], into a structure with such keys
    only, appends to every group the display strings of the courses of
    the page that belong to it, in the order of the page, and changes
    nothing else in the group. *)
Theorem mergePage_appends (f s : string) (pl : PageListing) (bin : Bin) :
  plainBin bin → Forall plainCourse (objects pl) →
  coursesAt f s (mergePage pl bin) = coursesAt f s bin ++ groupOf f s (objects pl).
Proof. apply coursesAt_mergePage. Qed.

Lemma mergePage_appends_witness :
  coursesAt "Science" "CMPUT"
    (mergePage {| objects := [ {| faculty := "Science"; subject := "CMPUT";
                                  asString := "CMPUT 201" |};
                               {| faculty := "Science"; subject := "MATH";
                                  asString := "MATH 100" |};
                               {| faculty := "Science"; subject := "CMPUT";
                                  asString := "CMPUT 175" |} ];
                   total_pages := 1 |} scenarioBin)
  = ["CMPUT 101"] ++ ["CMPUT 201"; "CMPUT 175"].
Proof.
  apply (mergePage_appends "Science" "CMPUT"
           {| objects := [ {| faculty := "Science"; subject := "CMPUT";
                              asString := "CMPUT 201" |};
                           {| faculty := "Science"; subject := "MATH";
                              asString := "MATH 100" |};
                           {| faculty := "Science"; subject := "CMPUT";
                              asString := "CMPUT 175" |} ];
              total_pages := 1 |} scenarioBin).
  - exact plainBin_scenario.
  - vm_compute. repeat constructor; discriminate.
Defined.

(** Under the same condition on the names, the groups after a merge are
    those of before and those of the courses of the page: no other key
    appears and none is lost. *)
Theorem mergePage_groups (f s : string) (pl : PageListing) (bin : Bin) :
  plainBin bin → Forall plainCourse (objects pl) →
  (hasGroup f s (mergePage pl bin) ↔
   hasGroup f s bin ∨ ∃ c, c ∈ objects pl ∧ faculty c = f ∧ subject c = s).
Proof.
  intros Hb Hl. unfold mergePage.
  rewrite (proj1 (mergeCourses_plain _ bin Hb Hl)). apply hasGroup_fold.
Qed.

Lemma mergePage_groups_witness :
  hasGroup "Science" "MATH"
    (mergePage {| objects := [ {| faculty := "Science"; subject := "MATH";
                                  asString := "MATH 100" |} ];
                   total_pages := 1 |} scenarioBin).
Proof.
  apply (mergePage_groups "Science" "MATH"
           {| objects := [ {| faculty := "Science"; subject := "MATH";
                              asString := "MATH 100" |} ];
              total_pages := 1 |} scenarioBin).
  - exact plainBin_scenario.
  - vm_compute. repeat constructor; discriminate.
  - right. eexists. split; [apply list_elem_of_singleton; reflexivity|]. by split.
Defined.

(** When the courses of the pages have faculties and subjects other than
    [__proto__] and [hasOwnProperty], in every state that the controller
    reaches each faculty of [subjectBin] has a subject and each subject
    has a course. *)
Theorem subjectBin_wellGrouped (server : Server) (data : PageListing)
    (sched : list nat) (st : State) :
  server 1%Z = Some data →
  plainPages server (total_pages data) →
  run server sched init = Some st →
  wellGrouped (var_subjectBin st).
Proof.
  intros Hs Hplain Hrun.
  assert (Hempty : wellGrouped ∅) by (intros f fac; by rewrite lookup_empty).
  destruct sched as [|i sched]; simpl in Hrun; [by injection Hrun as <-|].
  destruct (deliver server i init) as [st1|] eqn:Hd; [|done].
  destruct (deliver_init server i st1 data Hs Hd) as (_ & Hb & Hf).
  eapply (run_wellGrouped server _ sched st1 st Hplain Hf); [| |done].
  - rewrite Hb. apply plainBin_empty.
  - by rewrite Hb.
Qed.

Lemma subjectBin_wellGrouped_witness :
  match run threePages [0; 2; 0] init with
  | Some st => wellGrouped (var_subjectBin st)
  | None => False
  end.
Proof.
  destruct (run threePages [0; 2; 0] init) as [st|] eqn:Hrun; [|by vm_compute in Hrun].
  apply (subjectBin_wellGrouped threePages
           {| objects := [cmput101]; total_pages := 3 |} [0; 2; 0] st).
  - reflexivity.
  - unfold plainPages. vm_compute. repeat constructor; discriminate.
  - exact Hrun.
Defined.

(** When the courses of the pages have faculties and subjects other than
    [__proto__] and [hasOwnProperty], then once no response is pending
    every group holds exactly the display strings of the courses of
    that faculty and subject on the pages 1 to [total_pages], each as
    often as it is there; only their order depends on the order of
    arrival. Pages whose request failed count as empty. *)
Theorem groups_permutation (server : Server) (data : PageListing)
    (sched : list nat) (st : State) (f s : string) :
  server 1%Z = Some data →
  plainPages server (total_pages data) →
  run server sched init = Some st →
  pending st = [] →
  coursesAt f s (var_subjectBin st)
  ≡ₚ groupOf f s (catalogue server (total_pages data)).
Proof. apply complete_groups. Qed.

Lemma groups_permutation_witness :
  match run threePages [0; 2; 0; 0] init with
  | Some st =>
      coursesAt "Science" "CMPUT" (var_subjectBin st)
      ≡ₚ groupOf "Science" "CMPUT" (catalogue threePages 3)
  | None => False
  end.
Proof.
  destruct (run threePages [0; 2; 0; 0] init) as [st|] eqn:Hrun; [|by vm_compute in Hrun].
  apply (groups_permutation threePages
           {| objects := [cmput101]; total_pages := 3 |}
           [0; 2; 0; 0] st "Science" "CMPUT").
  - reflexivity.
  - unfold plainPages. vm_compute. repeat constructor; discriminate.
  - exact Hrun.
  - vm_compute in Hrun. injection Hrun as <-. reflexivity.
Defined.

Section InOrder.

Variable server : Server.

(** Responses handled in the order of the requests. *)
Lemma run_in_order (f s : string) (ps : list Z) : ∀ st,
  Forall (fun p => Forall plainCourse (pageObjects server p)) ps →
  plainBin (var_subjectBin st) →
  pending st = map (fun p => (p, OnDataPage)) ps →
  ∃ st', run server (replicate (length ps) 0) st = Some st' ∧
         pending st' = [] ∧
         coursesAt f s (var_subjectBin st') =
         coursesAt f s (var_subjectBin st) ++ groupOf f s (flat_map (pageObjects server) ps).
Proof.
  induction ps as [|p ps IH]; intros st Hplain Hb Hp; simpl.
  - exists st. unfold groupOf. simpl. by rewrite app_nil_r.
  - apply Forall_cons in Hplain as [Hpl Hplain].
    unfold deliver. rewrite Hp. simpl.
    assert (Hpo : pageObjects server p =
              match server p with Some d => objects d | None => [] end) by done.
    rewrite Hpo in *. clear Hpo.
    destruct (server p) as [data|].
    + destruct (IH (onDataPage data (set_pending (map (fun p => (p, OnDataPage)) ps) st)))
        as (st' & Hrun & Hpe & Hc); [done|by apply mergeCourses_plain|done|].
      exists st'. split; [done|]. split; [done|].
      rewrite Hc. simpl. rewrite coursesAt_mergePage by done.
      rewrite groupOf_app. by rewrite <- app_assoc.
    + destruct (IH (onError (set_pending (map (fun p => (p, OnDataPage)) ps) st)))
        as (st' & Hrun & Hpe & Hc); [done|done|done|].
      exists st'. split; [done|]. split; [done|]. by rewrite Hc.
Qed.

End InOrder.

(** When the courses of the pages have faculties and subjects other than
    [__proto__] and [hasOwnProperty] and the responses arrive in the
    order of the requests, every group lists its courses in the order
    of the pages. *)
Theorem groups_in_page_order (server : Server) (data : PageListing) (f s : string) :
  server 1%Z = Some data →
  plainPages server (total_pages data) →
  ∃ st,
    run server (replicate (S (Z.to_nat (total_pages data))) 0) init = Some st ∧
    pending st = [] ∧
    coursesAt f s (var_subjectBin st) = groupOf f s (catalogue server (total_pages data)).
Proof.
  intros Hs Hplain.
  destruct (deliver server 0 init) as [st1|] eqn:Hd.
  2:{ unfold deliver in Hd. simpl in Hd. by rewrite Hs in Hd. }
  destruct (first_response server data 0 st1 Hs Hd) as (Hb & _ & Hp).
  destruct (run_in_order server f s (seqZ 1 (total_pages data)) st1)
    as (st & Hrun & Hpe & Hc).
  { apply Forall_forall. intros p Hin. by eapply plainPages_page. }
  { rewrite Hb. apply plainBin_empty. }
  { done. }
  exists st. rewrite length_seqZ in Hrun.
  cbn [replicate run]. rewrite Hd. split; [done|]. split; [done|].
  rewrite Hc. unfold coursesAt at 1. rewrite Hb, lookup_empty. done.
Qed.

Lemma groups_in_page_order_witness :
  ∃ st,
    run threePages [0; 0; 0; 0] init = Some st ∧
    pending st = [] ∧
    coursesAt "Science" "CMPUT" (var_subjectBin st)
    = ["CMPUT 101"; "CMPUT 201"; "CMPUT 301"].
Proof.
  apply (groups_in_page_order threePages
           {| objects := [cmput101]; total_pages := 3 |} "Science" "CMPUT" eq_refl).
  unfold plainPages. vm_compute. repeat constructor; discriminate.
Defined.

Section Failures.

Lemma run_nothing_pending (server : Server) (sched : list nat) (st st' : State) :
  pending st = [] → run server sched st = Some st' → sched = [] ∧ st' = st.
Proof.
  intros Hp. destruct sched as [|i sched]; simpl.
  - by intros [= <-].
  - unfold deliver. by rewrite Hp.
Qed.

End Failures.

(** When the request for the first page fails, an alert is shown and
    that is all: no page is requested again and [subjectBin] stays
    empty. *)
Theorem first_request_failed (server : Server) (sched : list nat) (st : State) :
  server 1%Z = None →
  sched ≠ [] →
  run server sched init = Some st →
  sched = [0] ∧ requested st = [1%Z] ∧ pending st = [] ∧
  var_subjectBin st = ∅ ∧ alerts st = 1.
Proof.
  intros Hs Hne. destruct sched as [|i sched]; [done|]. simpl.
  destruct (deliver server i init) as [st1|] eqn:Hd; [|done].
  intros Hrun.
  destruct (deliver_init_failed server i st1 Hs Hd) as (Hr & Hp & Hb).
  destruct (run_nothing_pending server sched st1 st Hp Hrun) as [-> ->].
  unfold deliver in Hd. destruct i as [|i]; simpl in Hd; [|done].
  rewrite Hs in Hd. injection Hd as <-. done.
Qed.

Lemma first_request_failed_witness :
  match run (fun _ => None) [0] init with
  | Some st => requested st = [1%Z] ∧ alerts st = 1
  | None => False
  end.
Proof.
  destruct (run (fun _ => None) [0] init) as [st|] eqn:Hrun; [|by vm_compute in Hrun].
  destruct (first_request_failed (fun _ => None) [0] st eq_refl) as (_ & Hr & _ & _ & Ha).
  - discriminate.
  - exact Hrun.
  - by split.
Defined.

(** When the first page reports no page at all ([total_pages] at most
    0), the loop requests nothing: page 1 is requested once and
    [subjectBin] stays empty, whatever the courses of that response. *)
Theorem no_pages_nothing_merged (server : Server) (data : PageListing)
    (sched : list nat) (st : State) :
  server 1%Z = Some data →
  (total_pages data ≤ 0)%Z →
  sched ≠ [] →
  run server sched init = Some st →
  sched = [0] ∧ requested st = [1%Z] ∧ pending st = [] ∧ var_subjectBin st = ∅.
Proof.
  intros Hs Hn Hne. destruct sched as [|i sched]; [done|]. simpl.
  destruct (deliver server i init) as [st1|] eqn:Hd; [|done].
  intros Hrun.
  destruct (deliver_init server i st1 data Hs Hd) as (-> & _ & Hf).
  destruct (first_response server data 0 st1 Hs Hd) as (Hb & _ & Hp).
  rewrite seqZ_nil in Hp by done. simpl in Hp.
  destruct (run_nothing_pending server sched st1 st Hp Hrun) as [-> ->].
  destruct Hf as (Hr & _). rewrite seqZ_nil in Hr by done. done.
Qed.

Lemma no_pages_nothing_merged_witness :
  match run (fun _ => Some {| objects := objects scenarioPage; total_pages := 0 |}) [0] init with
  | Some st => requested st = [1%Z] ∧ var_subjectBin st = ∅
  | None => False
  end.
Proof.
  set (server := fun _ : Z => Some {| objects := objects scenarioPage; total_pages := 0 |}).
  destruct (run server [0] init) as [st|] eqn:Hrun; [|by vm_compute in Hrun].
  destruct (no_pages_nothing_merged server
              {| objects := objects scenarioPage; total_pages := 0 |} [0] st eq_refl)
    as (_ & Hr & _ & Hb).
  - simpl. lia.
  - discriminate.
  - exact Hrun.
  - by split.
Defined.

Section Alerts.

Variable server : Server.

Lemma failed_count_perm (l k : list Z) :
  l ≡ₚ k → length (filter (fun p => failed server p = true) l)
           = length (filter (fun p => failed server p = true) k).
Proof. intros Hp. by rewrite Hp. Qed.

Lemma deliver_alerts (n : Z) (i : nat) (st st' : State) :
  fetched server n st →
  deliver server i st = Some st' →
  alerts st' + length (filter (fun p => failed server p = true) (map fst (pending st')))
  = alerts st + length (filter (fun p => failed server p = true) (map fst (pending st))).
Proof.
  intros (_ & _ & Hh & _). unfold deliver.
  destruct (pending st !! i) as [[p h]|] eqn:Hi; [|done].
  intros [= <-].
  assert (h = OnDataPage) as ->.
  { rewrite Forall_lookup in Hh. apply (Hh _ _ Hi). }
  rewrite (failed_count_perm (map fst (pending st))
             (p :: map fst (delete i (pending st)))).
  2:{ change (p :: map fst (delete i (pending st)))
        with (map fst ((p, OnDataPage) :: delete i (pending st))).
      apply Permutation_map. by apply delete_Permutation. }
  rewrite filter_cons.
  destruct (server p) as [data|] eqn:Hsp; simpl.
  - rewrite decide_False by (unfold failed; by rewrite Hsp). done.
  - rewrite decide_True by (unfold failed; by rewrite Hsp). simpl. lia.
Qed.

Lemma run_alerts (n : Z) (sched : list nat) : ∀ st st',
  fetched server n st →
  run server sched st = Some st' →
  alerts st' + length (filter (fun p => failed server p = true) (map fst (pending st')))
  = alerts st + length (filter (fun p => failed server p = true) (map fst (pending st))).
Proof.
  induction sched as [|i sched IH]; intros st st' Hf; simpl.
  - by intros [= <-].
  - destruct (deliver server i st) as [st1|] eqn:Hd; [|done].
    intros Hrun. rewrite (IH st1 st'); [|by eapply deliver_fetched|done].
    by eapply deliver_alerts.
Qed.

End Alerts.

(** After a first response, the alerts shown so far and the failures
    still to come are as many as the pages 1 to [total_pages] whose
    request fails: each failed page gives one alert, and a failure stops
    neither the other pages nor their merge. *)
Theorem one_alert_per_failed_page (server : Server) (data : PageListing)
    (sched : list nat) (st : State) :
  server 1%Z = Some data →
  sched ≠ [] →
  run server sched init = Some st →
  alerts st + length (filter (fun p => failed server p = true) (map fst (pending st)))
  = length (filter (fun p => failed server p = true) (seqZ 1 (total_pages data))).
Proof.
  intros Hs Hne. destruct sched as [|i sched]; [done|]. simpl.
  destruct (deliver server i init) as [st1|] eqn:Hd; [|done].
  intros Hrun.
  destruct (deliver_init server i st1 data Hs Hd) as (-> & _ & Hf).
  destruct (first_response server data 0 st1 Hs Hd) as (_ & _ & Hp).
  rewrite (run_alerts server _ sched st1 st Hf Hrun).
  rewrite Hp, map_map. simpl. rewrite map_id.
  unfold deliver in Hd. simpl in Hd. rewrite Hs in Hd. injection Hd as <-.
  unfold onFirstPage.
  assert (Ha : ∀ fuel st0, alerts (requestLoop fuel st0) = alerts st0).
  { induction fuel as [|fuel IH]; intros st0; simpl; [done|].
    destruct (loopCondition st0); [|done]. by rewrite IH. }
  by rewrite Ha.
Qed.

Lemma one_alert_per_failed_page_witness :
  match run (fun p => if decide (p = 2%Z) then None else threePages p) [0; 1; 0; 0] init with
  | Some st => alerts st + 0 = 1
  | None => False
  end.
Proof.
  set (server := fun p => if decide (p = 2%Z) then None else threePages p).
  destruct (run server [0; 1; 0; 0] init) as [st|] eqn:Hrun; [|by vm_compute in Hrun].
  pose proof (one_alert_per_failed_page server
                {| objects := [ {| faculty := "Science"; subject := "CMPUT";
                                   asString := "CMPUT 101" |} ];
                   total_pages := 3 |} [0; 1; 0; 0] st eq_refl) as H.
  assert (Hp : pending st = []).
  { vm_compute in Hrun. by injection Hrun as <-. }
  rewrite Hp in H. apply H; [discriminate|exact Hrun].
Defined.

Section Timers.

(** The queue of [$timeout] is empty or holds the one timer that
    [filterTextTimeout] refers to. *)
Lemma advance_queue (t : Z) (st : FilterState) :
  (timers st = [] ∨ ∃ id due, timers st = [(id, due)] ∧ filterTextTimeout st = Some id) →
  (timers (advance t st) = [] ∨
   ∃ id due, timers (advance t st) = [(id, due)] ∧ filterTextTimeout (advance t st) = Some id).
Proof.
  intros [Ht|(id & due & Ht & Hf)].
  - rewrite advance_idle by done. by left.
  - destruct (decide (due ≤ t)%Z) as [Hle|Hgt].
    + rewrite (advance_due _ _ _ _ Ht Hle). left. simpl.
      rewrite Ht, filter_cons. simpl.
      rewrite decide_False by (intros Hn; by apply Hn). done.
    + rewrite (advance_early _ _ _ _ Ht) by lia. right. eauto.
Qed.

Lemma runFilter_queue (changes : list (Z * string)) (tEnd : Z) : ∀ st,
  (timers st = [] ∨ ∃ id due, timers st = [(id, due)] ∧ filterTextTimeout st = Some id) →
  map snd (timers (runFilter changes tEnd st)) =
  match last changes with
  | Some (t, _) => if decide (t + delay ≤ tEnd)%Z then [] else [(t + delay)%Z]
  | None => map snd (timers (advance tEnd st))
  end.
Proof.
  induction changes as [|[t val] rest IH]; intros st Hq; [done|].
  cbn [runFilter].
  destruct (watchSearchBox_armed t val (advance t st) (advance_queue t st Hq))
    as (id & Ht & Hf & _ & _).
  rewrite IH by (right; eauto).
  destruct rest as [|[t' val'] rest'].
  2:{ change (last ((t, val) :: (t', val') :: rest')) with (last ((t', val') :: rest')).
      destruct (last ((t', val') :: rest')) as [[t0 v0]|] eqn:Hl; [done|].
      by apply last_None in Hl. }
  cbn [last]. destruct (decide (t + delay ≤ tEnd)%Z) as [Hle|Hgt].
  - rewrite (advance_due _ _ _ _ Ht Hle). unfold fire. cbn [timers fst snd].
    rewrite Ht, filter_cons. cbn [fst].
    rewrite decide_False by (intros Hn; by apply Hn). done.
  - rewrite (advance_early _ _ _ _ Ht) by lia. by rewrite Ht.
Qed.

Lemma fold_fire_shown (tms : list (nat * Z)) : ∀ st,
  filterText st = default "" (snd <$> last (published st)) →
  filterText (fold_left fire tms st)
  = default "" (snd <$> last (published (fold_left fire tms st))).
Proof.
  induction tms as [|tm tms IH]; intros st Hinv; simpl; [done|].
  apply IH. simpl. by rewrite last_snoc.
Qed.

Lemma runFilter_shown (changes : list (Z * string)) (tEnd : Z) : ∀ st,
  filterText st = default "" (snd <$> last (published st)) →
  filterText (runFilter changes tEnd st)
  = default "" (snd <$> last (published (runFilter changes tEnd st))).
Proof.
  induction changes as [|[t val] rest IH]; intros st Hinv; cbn [runFilter].
  - by apply fold_fire_shown.
  - apply IH. unfold watchSearchBox.
    pose proof (fold_fire_shown
                  (filter (fun tm => (snd tm ≤ t)%Z) (timers st)) st Hinv) as Ha.
    fold (advance t st) in Ha.
    destruct (filterTextTimeout (advance t st)); simpl; exact Ha.
Qed.

Lemma quietPublishes_burst (changes : list (Z * string)) (tEnd : Z) :
  burst changes →
  quietPublishes changes tEnd =
  match last changes with
  | Some (t, val) => if decide (t + delay ≤ tEnd)%Z then [((t + delay)%Z, val)] else []
  | None => []
  end.
Proof.
  induction changes as [|[t val] rest IH]; [done|].
  intros [Hgap Hb]. cbn [quietPublishes]. rewrite (IH Hb).
  destruct rest as [|[t' val'] rest']; [by rewrite app_nil_r|].
  rewrite decide_False by lia.
  by change (last ((t, val) :: (t', val') :: rest')) with (last ((t', val') :: rest')).
Qed.

End Timers.

(** The listener is called a first time when the watch is registered
    and then at every change of the search box. Whatever these calls
    and their times, at most one timer is in the queue at the end of a
    run: that of the last call, and only while its delay has not
    passed. The values passed play no part. *)
Theorem one_timer_pending (tReg : Z) (vReg : string)
    (changes : list (Z * string)) (tEnd : Z) :
  map snd (timers (runFilter ((tReg, vReg) :: changes) tEnd filterInit)) =
  (let t := fst (default (tReg, vReg) (last changes)) in
   if decide (t + delay ≤ tEnd)%Z then [] else [(t + delay)%Z]).
Proof.
  rewrite runFilter_queue by (by left). rewrite last_cons.
  by destruct (last changes) as [[t val]|].
Qed.

(** When the first change comes less than the delay after the call of
    the listener at registration, and each further change less than the
    delay after the one before, only the last value is published, once,
    the delay after the last change. The value of the registration call
    is never published, whatever it is. *)
Theorem burst_publishes_last (tReg : Z) (vReg : string)
    (changes : list (Z * string)) (tEnd t : Z) (val : string) :
  timeline ((tReg, vReg) :: changes) tEnd →
  burst ((tReg, vReg) :: changes) →
  last changes = Some (t, val) →
  (t + delay ≤ tEnd)%Z →
  published (runFilter ((tReg, vReg) :: changes) tEnd filterInit)
    = [((t + delay)%Z, val)] ∧
  filterText (runFilter ((tReg, vReg) :: changes) tEnd filterInit) = val.
Proof.
  intros Htl Hb Hlast Hle.
  assert (Hp : published (runFilter ((tReg, vReg) :: changes) tEnd filterInit)
               = [((t + delay)%Z, val)]).
  { rewrite runFilter_published by done.
    rewrite quietPublishes_burst by done. rewrite last_cons, Hlast.
    by rewrite decide_True by done. }
  split; [done|]. rewrite runFilter_shown by done. by rewrite Hp.
Qed.

Lemma burst_publishes_last_witness :
  published (runFilter [(0%Z, ""); (300%Z, "c"); (700%Z, "cm")] 2000 filterInit)
    = [(1200%Z, "cm")] ∧
  filterText (runFilter [(0%Z, ""); (300%Z, "c"); (700%Z, "cm")] 2000 filterInit)
    = "cm".
Proof.
  apply (burst_publishes_last 0 "" [(300%Z, "c"); (700%Z, "cm")] 2000 700 "cm").
  - simpl. lia.
  - simpl. unfold delay. lia.
  - reflexivity.
  - unfold delay. lia.
Defined.

End FastCourseListMore.

(** ** Further properties of [accordionCtrl] *)
Module AccordionMore.
Import Accordion.
Import AccordionSpec.

Section Faculties.

Lemma insert_new_faculty (g : FacultyGroup) (bin : list FacultyGroup) :
  faculty g ∉ map faculty bin →
  insertIntoSubjectBin g bin = inr (bin ++ [g]).
Proof.
  intros Hnin. rewrite insertIntoSubjectBin_new.
  - by destruct g.
  - apply Forall_forall. intros entry Hin Heq. apply Hnin.
    rewrite <- Heq. apply list_elem_of_In, in_map, list_elem_of_In, Hin.
Qed.

(** A group of a faculty that the structure does not have is appended as
    a new entry with the subjects of the group; the entries before it
    are unchanged. *)
Theorem insertIntoSubjectBin_new_faculty (g : FacultyGroup) (bin : list FacultyGroup) :
  faculty g ∉ map faculty bin →
  insertIntoSubjectBin g bin = inr (bin ++ [g]).
Proof. apply insert_new_faculty. Qed.

Lemma insertIntoSubjectBin_new_faculty_witness :
  insertIntoSubjectBin scienceMATH [] = inr ([] ++ [scienceMATH]).
Proof.
  apply (insertIntoSubjectBin_new_faculty scienceMATH []). apply not_elem_of_nil.
Defined.

Lemma insertExisting_inserted (g : FacultyGroup) (bin : list FacultyGroup) :
  subjects g = [] → insertExisting g bin true = inr (bin, true).
Proof.
  intros Hs. induction bin as [|entry bin IH]; simpl; [done|].
  rewrite Hs. simpl. rewrite IH. by destruct (decide _).
Qed.

Lemma insertExisting_no_subjects (g : FacultyGroup) (bin : list FacultyGroup) :
  subjects g = [] →
  Exists (fun entry => faculty entry = faculty g) bin →
  ∀ inserted, insertExisting g bin inserted = inr (bin, true).
Proof.
  intros Hs. induction bin as [|entry bin IH]; intros Hex inserted.
  - by apply Exists_nil in Hex.
  - simpl. destruct (decide (faculty entry = faculty g)) as [Heq|Hne].
    + rewrite Hs. simpl. by rewrite insertExisting_inserted.
    + apply Exists_cons in Hex as [?|Hex]; [done|]. by rewrite IH.
Qed.

Lemma insert_throws_iff (g : FacultyGroup) (bin : list FacultyGroup) :
  (insertIntoSubjectBin g bin = inl TypeError ↔
     faculty g ∈ map faculty bin ∧ subjects g ≠ []) ∧
  (faculty g ∈ map faculty bin → subjects g = [] →
     insertIntoSubjectBin g bin = inr bin).
Proof.
  assert (Hex : faculty g ∈ map faculty bin ↔
                Exists (fun entry => faculty entry = faculty g) bin).
  { rewrite Exists_exists, list_elem_of_In, in_map_iff.
    split; intros (x & H1 & H2); exists x; [split|split]; try done;
      by apply list_elem_of_In. }
  split; [split|].
  - intros Hthrow.
    destruct (decide (faculty g ∈ map faculty bin)) as [Hin|Hnin].
    + split; [done|]. intros Hs. unfold insertIntoSubjectBin in Hthrow.
      rewrite insertExisting_no_subjects in Hthrow; [done|done|by apply Hex].
    + by rewrite insert_new_faculty in Hthrow.
  - intros [Hin Hs]. apply insertIntoSubjectBin_existing; [by apply Hex|done].
  - intros Hin Hs. unfold insertIntoSubjectBin.
    rewrite insertExisting_no_subjects; [done|done|by apply Hex].
Qed.

Lemma insertIntoSubjectBin_extends (g : FacultyGroup) (bin bin' : list FacultyGroup) :
  insertIntoSubjectBin g bin = inr bin' →
  (bin' = bin ∧ faculty g ∈ map faculty bin) ∨
  (bin' = bin ++ [g] ∧ faculty g ∉ map faculty bin).
Proof.
  intros Hins.
  destruct (decide (faculty g ∈ map faculty bin)) as [Hin|Hnin].
  - left. split; [|done].
    destruct (subjects g) as [|x l] eqn:Hs.
    + rewrite (proj2 (insert_throws_iff g bin) Hin Hs) in Hins.
      by injection Hins.
    + assert (insertIntoSubjectBin g bin = inl TypeError) as Ht.
      { apply insert_throws_iff. split; [done|]. by rewrite Hs. }
      by rewrite Ht in Hins.
  - right. split; [|done].
    rewrite insert_new_faculty in Hins by done. by injection Hins.
Qed.

(** Parsing a page never changes or removes an entry of the structure,
    whether it throws or not, and never gives a faculty a second entry. *)
Theorem parsePage_keeps_entries (pageListing : PageListing) (bin bin' : list FacultyGroup)
    (thrown : option exn) :
  parsePage pageListing bin = (bin', thrown) →
  bin `prefix_of` bin' ∧ (NoDup (map faculty bin) → NoDup (map faculty bin')).
Proof.
  unfold parsePage. revert bin.
  induction (objects pageListing) as [|g groups IH]; intros bin; simpl.
  - by intros [= <- <-].
  - destruct (insertIntoSubjectBin g bin) as [e|bin1] eqn:Hins.
    + by intros [= <- <-].
    + intros Hrest. destruct (IH bin1 Hrest) as [Hpre Hnd].
      destruct (insertIntoSubjectBin_extends g bin bin1 Hins) as [[-> _]|[-> Hnin]].
      * done.
      * split.
        -- etrans; [|exact Hpre]. by apply prefix_app_r.
        -- intros Hbin. apply Hnd. rewrite map_app. simpl.
           apply NoDup_app. split; [done|]. split.
           ++ intros x Hx ->%list_elem_of_singleton. done.
           ++ apply NoDup_singleton.
Qed.

Lemma parsePage_keeps_entries_witness :
  [scienceCMPUT] `prefix_of` [scienceCMPUT] ∧
  (NoDup (map faculty [scienceCMPUT]) → NoDup (map faculty [scienceCMPUT])).
Proof.
  apply (parsePage_keeps_entries {| objects := [scienceMATH]; total_pages := 1 |}
           [scienceCMPUT] [scienceCMPUT] (Some TypeError)).
  reflexivity.
Defined.

(** A page whose groups are of different faculties, none of them in the
    structure yet, is parsed without exception and its groups are
    appended in their order. *)
Theorem parsePage_distinct_faculties (pageListing : PageListing) (bin : list FacultyGroup) :
  NoDup (map faculty (bin ++ objects pageListing)) →
  parsePage pageListing bin = (bin ++ objects pageListing, None).
Proof.
  unfold parsePage. revert bin.
  induction (objects pageListing) as [|g groups IH]; intros bin Hnd; simpl.
  - by rewrite app_nil_r.
  - rewrite map_app in Hnd. simpl in Hnd.
    rewrite insert_new_faculty.
    + rewrite IH; [by rewrite <- app_assoc|].
      rewrite <- app_assoc. simpl. by rewrite map_app.
    + apply NoDup_app in Hnd as (_ & Hdisj & _).
      intros Hin. apply (Hdisj _ Hin). by left.
Qed.

Lemma parsePage_distinct_faculties_witness :
  parsePage {| objects := [scienceCMPUT; engineeringECE]; total_pages := 1 |} [artsENGL]
  = ([artsENGL] ++ [scienceCMPUT; engineeringECE], None).
Proof.
  apply (parsePage_distinct_faculties
           {| objects := [scienceCMPUT; engineeringECE]; total_pages := 1 |} [artsENGL]).
  simpl.
  repeat (apply NoDup_cons; split;
          [rewrite ?not_elem_of_cons; repeat split; try discriminate; apply not_elem_of_nil|]).
  apply NoDup_nil_2.
Defined.

(** The merge throws exactly when the faculty of the group is in the
    structure and the group has a subject; with no subject the
    structure is returned as it is. *)
Theorem insertIntoSubjectBin_throws_iff (g : FacultyGroup) (bin : list FacultyGroup) :
  (insertIntoSubjectBin g bin = inl TypeError ↔
     faculty g ∈ map faculty bin ∧ subjects g ≠ []) ∧
  (faculty g ∈ map faculty bin → subjects g = [] →
     insertIntoSubjectBin g bin = inr bin).
Proof. apply insert_throws_iff. Qed.

Lemma insertIntoSubjectBin_throws_iff_witness :
  insertIntoSubjectBin {| faculty := "Science"; subjects := [] |} [scienceCMPUT]
  = inr [scienceCMPUT].
Proof.
  apply (proj2 (insertIntoSubjectBin_throws_iff
                  {| faculty := "Science"; subjects := [] |} [scienceCMPUT])).
  - simpl. apply list_elem_of_singleton. reflexivity.
  - reflexivity.
Defined.

End Faculties.

Section Cart.

Lemma addToSchedule_elem (x course : value) (st : Schedule) :
  x ∈ addedCourses (addToSchedule course st) ↔ x = course ∨ x ∈ addedCourses st.
Proof.
  destruct (decide (course ∈ addedCourses st)) as [Hin|Hnin].
  - rewrite addToSchedule_present by done. split; [by right|].
    intros [->|?]; done.
  - rewrite addToSchedule_absent by done. simpl.
    rewrite elem_of_app, list_elem_of_singleton. tauto.
Qed.

Lemma addToSchedule_NoDup (course : value) (st : Schedule) :
  NoDup (addedCourses st) → NoDup (addedCourses (addToSchedule course st)).
Proof.
  intros Hnd. destruct (decide (course ∈ addedCourses st)) as [Hin|Hnin].
  - by rewrite addToSchedule_present.
  - rewrite addToSchedule_absent by done. simpl.
    apply NoDup_app. split; [done|]. split; [|apply NoDup_singleton].
    intros x Hx ->%list_elem_of_singleton. done.
Qed.

Lemma addToSchedule_prefix (course : value) (st : Schedule) :
  addedCourses st `prefix_of` addedCourses (addToSchedule course st).
Proof.
  destruct (decide (course ∈ addedCourses st)) as [Hin|Hnin].
  - by rewrite addToSchedule_present.
  - rewrite addToSchedule_absent by done. simpl. by apply prefix_app_r.
Qed.

Lemma addAllToSchedule_facts (courses : list value) : ∀ st,
  NoDup (addedCourses st) →
  NoDup (addedCourses (addAllToSchedule courses st)) ∧
  addedCourses st `prefix_of` addedCourses (addAllToSchedule courses st) ∧
  ∀ x, x ∈ addedCourses (addAllToSchedule courses st) ↔
       x ∈ courses ∨ x ∈ addedCourses st.
Proof.
  induction courses as [|course courses IH]; intros st Hnd.
  - simpl. split; [done|]. split; [done|]. intros x. rewrite elem_of_nil. tauto.
  - change (addAllToSchedule (course :: courses) st)
      with (addAllToSchedule courses (addToSchedule course st)).
    destruct (IH (addToSchedule course st) (addToSchedule_NoDup course st Hnd))
      as (Hnd' & Hpre & Hel).
    split; [done|]. split.
    + etrans; [apply addToSchedule_prefix|exact Hpre].
    + intros x. rewrite Hel, addToSchedule_elem, elem_of_cons. tauto.
Qed.

End Cart.

(** After any sequence of calls from the initial state, the list of
    added courses has every course that was passed, each once, and
    nothing else; the counter is the number of different courses. *)
Theorem addedCourses_distinct (courses : list value) :
  NoDup (addedCourses (addAllToSchedule courses scheduleInit)) ∧
  (∀ x, x ∈ addedCourses (addAllToSchedule courses scheduleInit) ↔ x ∈ courses) ∧
  shoppingCartSize (addAllToSchedule courses scheduleInit)
  = Z.of_nat (length (remove_dups courses)).
Proof.
  destruct (addAllToSchedule_facts courses scheduleInit (NoDup_nil_2 (A:=value)))
    as (Hnd & _ & Hel).
  assert (Hel' : ∀ x, x ∈ addedCourses (addAllToSchedule courses scheduleInit)
                      ↔ x ∈ courses).
  { intros x. rewrite Hel. simpl. rewrite elem_of_nil. tauto. }
  split; [done|]. split; [done|].
  rewrite addAllToSchedule_counter by done. f_equal.
  apply Permutation_length, NoDup_Permutation; [done|apply NoDup_remove_dups|].
  intros x. by rewrite Hel', elem_of_remove_dups.
Qed.

(** The list only grows at its end: a call never removes a course or
    moves one, so the courses are in the order in which each was first
    added. *)
Theorem addedCourses_only_grows (courses : list value) (st : Schedule) :
  NoDup (addedCourses st) →
  addedCourses st `prefix_of` addedCourses (addAllToSchedule courses st).
Proof. intros Hnd. by apply addAllToSchedule_facts. Qed.

Lemma addedCourses_only_grows_witness :
  addedCourses (addToSchedule (VObject 0) scheduleInit)
  `prefix_of`
  addedCourses (addAllToSchedule [VObject 1; VObject 0]
                  (addToSchedule (VObject 0) scheduleInit)).
Proof.
  apply (addedCourses_only_grows [VObject 1; VObject 0]
           (addToSchedule (VObject 0) scheduleInit)).
  apply NoDup_singleton.
Defined.

Section Cache.

Lemma loadMore_monotone (courseIdNumber id : Z) (st : DetailState) :
  description (loadMore courseIdNumber st) = description st ∧
  ∃ more, detailRequests (loadMore courseIdNumber st) = detailRequests st ++ more ∧
          detailPending (loadMore courseIdNumber st) = detailPending st ++ more ∧
          (is_Some (description st !! id) → id ∉ more).
Proof.
  unfold loadMore. destruct (description st !! courseIdNumber) eqn:Hd.
  - split; [done|]. exists []. rewrite !app_nil_r. repeat split; try done.
    intros _. apply not_elem_of_nil.
  - split; [done|]. exists [courseIdNumber]. repeat split; try done.
    intros [x Hx] ->%list_elem_of_singleton. congruence.
Qed.

Lemma detailStep_cached (ev : detailEvent) (id : Z) (st st' : DetailState) :
  detailStep ev st = Some st' →
  is_Some (description st !! id) →
  is_Some (description st' !! id) ∧
  ∃ more, detailRequests st' = detailRequests st ++ more ∧ id ∉ more.
Proof.
  destruct ev as [courseIdNumber|i response]; simpl.
  - intros [= <-] Hc.
    destruct (loadMore_monotone courseIdNumber id st) as (Hd & more & Hr & _ & Hn).
    rewrite Hd. split; [done|]. exists more. split; [done|]. by apply Hn.
  - unfold deliverDetail. destruct (detailPending st !! i) as [k|]; [|done].
    intros [= <-] Hc. split.
    + destruct response as [text|]; simpl; [|done].
      destruct (decide (k = id)) as [->|Hne].
      * rewrite lookup_insert_eq. by eexists.
      * by rewrite lookup_insert_ne.
    + exists []. rewrite app_nil_r. split; [by destruct response|apply not_elem_of_nil].
Qed.

End Cache.

(** Once the description of a course is stored it stays stored, and no
    later call of [loadMore], however many and in whatever order with
    the responses, requests it again. *)
Theorem cached_never_requested_again (events : list detailEvent) (id : Z) :
  ∀ st st' : DetailState,
    runDetail events st = Some st' →
    is_Some (description st !! id) →
    is_Some (description st' !! id) ∧
    ∃ more, detailRequests st' = detailRequests st ++ more ∧ id ∉ more.
Proof.
  induction events as [|ev events IH]; intros st st'; simpl.
  - intros [= <-] Hc. split; [done|]. exists []. rewrite app_nil_r.
    split; [done|apply not_elem_of_nil].
  - destruct (detailStep ev st) as [st1|] eqn:Hstep; [|done].
    intros Hrun Hc.
    destruct (detailStep_cached ev id st st1 Hstep Hc) as (Hc1 & more1 & Hr1 & Hn1).
    destruct (IH st1 st' Hrun Hc1) as (Hc' & more & Hr & Hn).
    split; [done|]. exists (more1 ++ more). rewrite Hr, Hr1, <- app_assoc.
    split; [done|]. rewrite not_elem_of_app. done.
Qed.

Lemma cached_never_requested_again_witness :
  ∃ st',
    runDetail [Load 7; Respond 0 (Some "Intro"); Load 7; Load 8; Load 7] detailInit
      = Some st' ∧
    detailRequests st' = [7%Z; 8%Z].
Proof.
  destruct (runDetail [Load 7; Respond 0 (Some "Intro")] detailInit) as [st|] eqn:Hrun;
    [|by vm_compute in Hrun].
  destruct (runDetail [Load 7; Load 8; Load 7] st) as [st'|] eqn:Hrun';
    [|vm_compute in Hrun; injection Hrun as <-; by vm_compute in Hrun'].
  destruct (cached_never_requested_again [Load 7; Load 8; Load 7] 7%Z st st' Hrun')
    as (_ & more & Hr & Hn).
  { vm_compute in Hrun. injection Hrun as <-. by eexists. }
  exists st'. vm_compute in Hrun. injection Hrun as <-.
  vm_compute in Hrun'. injection Hrun' as <-. split; reflexivity.
Defined.

Section CacheOrigin.

Lemma detailStep_origin (ev : detailEvent) (st st' : DetailState) :
  detailStep ev st = Some st' →
  (∀ id, is_Some (description st !! id) ∨ id ∈ detailPending st → id ∈ detailRequests st) →
  (∀ id, is_Some (description st' !! id) ∨ id ∈ detailPending st' → id ∈ detailRequests st').
Proof.
  destruct ev as [courseIdNumber|i response]; simpl; intros Hstep Hinv id.
  - injection Hstep as <-.
    destruct (loadMore_monotone courseIdNumber id st) as (Hd & more & Hr & Hp & _).
    rewrite Hd, Hr, Hp, !elem_of_app. intros [Hc|[Hp'|Hm]]; [| |by right].
    + left. apply Hinv. by left.
    + left. apply Hinv. by right.
  - unfold deliverDetail in Hstep.
    destruct (detailPending st !! i) as [k|] eqn:Hi; [|done].
    assert (Hk : k ∈ detailRequests st).
    { apply Hinv. right. by eapply list_elem_of_lookup_2. }
    assert (Hsub : ∀ id, id ∈ delete i (detailPending st) → id ∈ detailPending st).
    { intros id'. apply list_elem_of_delete_inv. }
    injection Hstep as <-.
    destruct response as [text|]; simpl.
    + intros [Hc|Hp].
      * destruct (decide (k = id)) as [->|Hne]; [done|].
        rewrite lookup_insert_ne in Hc by done. apply Hinv. by left.
      * apply Hinv. right. by apply Hsub.
    + intros [Hc|Hp]; apply Hinv; [by left|right; by apply Hsub].
Qed.

End CacheOrigin.

(** Every id with a stored description, and every id with a request
    pending, was requested by [loadMore]: a response never stores a
    description under an id that was not asked for. *)
Theorem descriptions_were_requested (events : list detailEvent) (st : DetailState) (id : Z) :
  runDetail events detailInit = Some st →
  is_Some (description st !! id) ∨ id ∈ detailPending st →
  id ∈ detailRequests st.
Proof.
  assert (Hgen : ∀ st0,
            (∀ id, is_Some (description st0 !! id) ∨ id ∈ detailPending st0 →
                   id ∈ detailRequests st0) →
            runDetail events st0 = Some st →
            ∀ id, is_Some (description st !! id) ∨ id ∈ detailPending st →
                  id ∈ detailRequests st).
  { induction events as [|ev events IH]; intros st0 Hinv; simpl.
    - by intros [= <-].
    - destruct (detailStep ev st0) as [st1|] eqn:Hstep; [|done].
      apply IH. by eapply detailStep_origin. }
  intros Hrun. apply (Hgen detailInit); [|done].
  intros id' [[x Hx]|Hp]; simpl in *.
  - by rewrite lookup_empty in Hx.
  - by apply elem_of_nil in Hp.
Qed.

Lemma descriptions_were_requested_witness :
  ∃ st,
    runDetail [Load 7; Respond 0 (Some "Intro")] detailInit = Some st ∧
    7%Z ∈ detailRequests st.
Proof.
  destruct (runDetail [Load 7; Respond 0 (Some "Intro")] detailInit) as [st|] eqn:Hrun;
    [|by vm_compute in Hrun].
  exists st. split; [done|].
  apply (descriptions_were_requested [Load 7; Respond 0 (Some "Intro")] st 7%Z Hrun).
  left. vm_compute in Hrun. injection Hrun as <-. by eexists.
Defined.

Section Numbers.

#[local] Arguments isDigit : simpl never.

Lemma isDigit_range (c : ascii) :
  isDigit c = true → (0 ≤ Z.of_N (N_of_ascii c) - 48 ≤ 9)%Z.
Proof.
  unfold isDigit. intros [H1 H2]%andb_prop.
  apply N.leb_le in H1, H2. lia.
Qed.

Lemma digits_fold (l : list ascii) : ∀ acc : Z,
  fold_left (fun acc c => (10 * acc + (Z.of_N (N_of_ascii c) - 48))%Z) l acc
  = (acc * 10 ^ Z.of_nat (length l)
     + fold_left (fun acc c => (10 * acc + (Z.of_N (N_of_ascii c) - 48))%Z) l 0)%Z.
Proof.
  induction l as [|c l IH]; intros acc.
  - simpl. lia.
  - cbn [fold_left length]. rewrite (IH (10 * acc + _)%Z), (IH (10 * 0 + _)%Z).
    rewrite Nat2Z.inj_succ, Z.pow_succ_r by lia. lia.
Qed.

Lemma digitsValue_String (c : ascii) (s : string) :
  digitsValue (String c s)
  = ((Z.of_N (N_of_ascii c) - 48) * 10 ^ Z.of_nat (String.length s) + digitsValue s)%Z.
Proof.
  assert (Hlen : length (String.list_ascii_of_string s) = String.length s).
  { induction s as [|a s IH]; simpl; [done|]. by rewrite IH. }
  unfold digitsValue. cbn [String.list_ascii_of_string fold_left].
  rewrite digits_fold, Hlen. ring.
Qed.

Lemma digitsValue_range (s : string) :
  allDigits s → (0 ≤ digitsValue s < 10 ^ Z.of_nat (String.length s))%Z.
Proof.
  unfold allDigits. induction s as [|c s IH]; intros Hd.
  - by vm_compute.
  - cbn [allChars] in Hd. apply andb_prop in Hd as [Hc Hs].
    rewrite digitsValue_String. cbn [String.length].
    rewrite Nat2Z.inj_succ, Z.pow_succ_r by lia.
    pose proof (isDigit_range c Hc). specialize (IH Hs). nia.
Qed.

(** On two runs of digits of the same length, the order of the strings
    is the order of the numbers. *)
Lemma lexicographic_numeric (x : string) : ∀ y : string,
  allDigits x → allDigits y → String.length x = String.length y →
  lexicographic x y =
  match (digitsValue x ?= digitsValue y)%Z with
  | Lt => (-1)%Z
  | Eq => 0%Z
  | Gt => 1%Z
  end.
Proof.
  unfold lexicographic.
  induction x as [|a x IH]; intros [|b y] Hx Hy Hlen; try done.
  injection Hlen as Hlen.
  pose proof Hx as Hx'. pose proof Hy as Hy'.
  unfold allDigits in Hx', Hy'. cbn [allChars] in Hx', Hy'.
  apply andb_prop in Hx' as [Ha Hxs]. apply andb_prop in Hy' as [Hb Hys].
  pose proof (isDigit_range a Ha). pose proof (isDigit_range b Hb).
  pose proof (digitsValue_range x Hxs) as Hrx.
  pose proof (digitsValue_range y Hys) as Hry.
  rewrite !digitsValue_String, <- Hlen in *.
  cbn [String.compare]. unfold Ascii.compare.
  destruct (N.compare_spec (N_of_ascii a) (N_of_ascii b)) as [Heq|Hlt|Hgt].
  - rewrite (IH y Hxs Hys Hlen), Heq.
    by rewrite Z.add_compare_mono_l.
  - assert (((Z.of_N (N_of_ascii a) - 48) * 10 ^ Z.of_nat (String.length x)
             + digitsValue x
             < (Z.of_N (N_of_ascii b) - 48) * 10 ^ Z.of_nat (String.length x)
               + digitsValue y)%Z) as Hcmp by nia.
    apply Z.compare_lt_iff in Hcmp. by rewrite Hcmp.
  - assert (((Z.of_N (N_of_ascii b) - 48) * 10 ^ Z.of_nat (String.length x)
             + digitsValue y
             < (Z.of_N (N_of_ascii a) - 48) * 10 ^ Z.of_nat (String.length x)
               + digitsValue x)%Z) as Hcmp by nia.
    apply Z.compare_gt_iff in Hcmp. by rewrite Hcmp.
Qed.

Lemma firstDigitRun_allDigits (s run : string) : firstDigitRun s run → allDigits run.
Proof. by intros (_ & _ & _ & _ & Hr & _). Qed.

End Numbers.

(** When the first runs of digits of two courses have the same length,
    the comparator orders the courses by the numbers that the runs
    spell: among numbers of the same number of digits the order is the
    numerical one. *)
Theorem compare_numeric_on_equal_length (a b : Course) (ra rb : string) :
  firstDigitRun (asString a) ra →
  firstDigitRun (asString b) rb →
  String.length ra = String.length rb →
  compareByCourseNumber a b =
  match (digitsValue ra ?= digitsValue rb)%Z with
  | Lt => (-1)%Z
  | Eq => 0%Z
  | Gt => 1%Z
  end.
Proof.
  intros Ha Hb Hlen. rewrite (compareByCourseNumber_runs a b ra rb Ha Hb).
  apply lexicographic_numeric; [by eapply firstDigitRun_allDigits..|done].
Qed.

Lemma compare_numeric_on_equal_length_witness :
  compareByCourseNumber {| asString := "CMPUT 201" |} {| asString := "CMPUT 174" |} = 1%Z.
Proof.
  apply (compare_numeric_on_equal_length
           {| asString := "CMPUT 201" |} {| asString := "CMPUT 174" |} "201" "174").
  - exists "CMPUT ", "". by vm_compute.
  - exists "CMPUT ", "". by vm_compute.
  - reflexivity.
Defined.

Section Order.

#[local] Arguments isDigit : simpl never.

Lemma stringLess_asym (x : string) : ∀ y : string,
  stringLess x y = true → stringLess y x = false.
Proof.
  induction x as [|a x IH]; intros [|b y]; simpl; try done.
  destruct (N.ltb_spec (N_of_ascii a) (N_of_ascii b)) as [Hlt|Hge].
  - intros _. destruct (N.ltb_spec (N_of_ascii b) (N_of_ascii a)); [lia|done].
  - destruct (N.ltb_spec (N_of_ascii b) (N_of_ascii a)); [done|]. apply IH.
Qed.

Lemma stringLess_irrefl (x : string) : stringLess x x = false.
Proof.
  induction x as [|a x IH]; simpl; [done|]. by rewrite N.ltb_irrefl.
Qed.

(** Two strings of which neither is less are the same string. *)
Lemma stringLess_total (x : string) : ∀ y : string,
  stringLess x y = false → stringLess y x = false → x = y.
Proof.
  induction x as [|a x IH]; intros [|b y]; simpl; try done.
  destruct (N.ltb_spec (N_of_ascii a) (N_of_ascii b)) as [Hlt|Hge]; [done|].
  destruct (N.ltb_spec (N_of_ascii b) (N_of_ascii a)) as [Hlt'|Hge']; [done|].
  intros H1 H2. f_equal; [|by apply IH].
  assert (Heq : N_of_ascii a = N_of_ascii b) by lia.
  by rewrite <- (ascii_N_embedding a), <- (ascii_N_embedding b), Heq.
Qed.

Lemma stringLess_trans (x : string) : ∀ y z : string,
  stringLess x y = true → stringLess y z = true → stringLess x z = true.
Proof.
  induction x as [|a x IH]; intros [|b y] [|c z]; simpl; try done.
  destruct (N.ltb_spec (N_of_ascii a) (N_of_ascii b)) as [Hab|Hab];
    destruct (N.ltb_spec (N_of_ascii b) (N_of_ascii c)) as [Hbc|Hbc];
    destruct (N.ltb_spec (N_of_ascii a) (N_of_ascii c)) as [Hac|Hac];
    try done; try lia;
    destruct (N.ltb_spec (N_of_ascii b) (N_of_ascii a)) as [Hba|Hba];
    try done; try lia;
    destruct (N.ltb_spec (N_of_ascii c) (N_of_ascii b)) as [Hcb|Hcb];
    try done; try lia;
    destruct (N.ltb_spec (N_of_ascii c) (N_of_ascii a)) as [Hca|Hca];
    try done; try lia.
  apply IH.
Qed.

Lemma matchDigits_nonneg (s run : string) :
  matchDigits s = Some run → (0 ≤ digitsValue run)%Z.
Proof.
  intros Hm. apply firstDigitRun_matchDigits, firstDigitRun_allDigits in Hm.
  by apply digitsValue_range.
Qed.

Lemma matchLess_asym (s t : string) :
  matchLess (matchDigits s) (matchDigits t) = true →
  matchLess (matchDigits t) (matchDigits s) = false.
Proof.
  destruct (matchDigits s) as [x|] eqn:Hs, (matchDigits t) as [y|] eqn:Ht; simpl.
  - apply stringLess_asym.
  - pose proof (matchDigits_nonneg s x Hs). intros ?%Z.ltb_lt. lia.
  - pose proof (matchDigits_nonneg t y Ht). intros _. apply Z.ltb_ge. lia.
  - done.
Qed.

Lemma matchDigits_None (s : string) : matchDigits s = None ↔ noDigit s.
Proof.
  unfold noDigit. induction s as [|c s IH]; simpl; [done|].
  destruct (isDigit c); simpl; [done|exact IH].
Qed.

End Order.

(** Exchanging the two courses changes the sign of the result, whether
    their display strings have digits or not: the comparator never says
    of two courses that each comes before the other. *)
Theorem compare_antisymmetric (a b : Course) :
  compareByCourseNumber b a = (- compareByCourseNumber a b)%Z.
Proof.
  unfold compareByCourseNumber. cbv zeta.
  destruct (matchLess (matchDigits (asString a)) (matchDigits (asString b))) eqn:Hab.
  - by rewrite (matchLess_asym _ _ Hab).
  - by destruct (matchLess (matchDigits (asString b)) (matchDigits (asString a))).
Qed.

(** A course whose display string has no digit compares before every
    course whose number is positive and equal to every course whose
    number is zero or that has no digit either. *)
Theorem compare_without_digits (a b : Course) :
  noDigit (asString a) →
  compareByCourseNumber a b =
  match matchDigits (asString b) with
  | Some rb => if decide (0 < digitsValue rb)%Z then (-1)%Z else 0%Z
  | None => 0%Z
  end.
Proof.
  intros Ha%matchDigits_None. unfold compareByCourseNumber. rewrite Ha.
  destruct (matchDigits (asString b)) as [rb|] eqn:Hb; simpl; [|done].
  pose proof (matchDigits_nonneg _ _ Hb).
  destruct (decide (0 < digitsValue rb)%Z) as [Hpos|Hz].
  - apply Z.ltb_lt in Hpos. by rewrite Hpos.
  - assert ((0 <? digitsValue rb)%Z = false) as -> by (apply Z.ltb_ge; lia).
    assert ((digitsValue rb <? 0)%Z = false) as -> by (apply Z.ltb_ge; lia).
    done.
Qed.

Lemma compare_without_digits_witness :
  compareByCourseNumber {| asString := "Thesis" |} cmput10 = (-1)%Z ∧
  compareByCourseNumber {| asString := "Thesis" |} {| asString := "WKEXP 000" |} = 0%Z.
Proof.
  split.
  - apply (compare_without_digits {| asString := "Thesis" |} cmput10). by vm_compute.
  - apply (compare_without_digits {| asString := "Thesis" |} {| asString := "WKEXP 000" |}).
    by vm_compute.
Defined.

(** On courses whose display strings have digits the comparator is a
    consistent order: it is 0 exactly for equal runs of digits, and
    "not after" is transitive. *)
Theorem compare_consistent_with_digits (a b c : Course) (ra rb rc : string) :
  firstDigitRun (asString a) ra →
  firstDigitRun (asString b) rb →
  firstDigitRun (asString c) rc →
  (compareByCourseNumber a b = 0%Z ↔ ra = rb) ∧
  ((compareByCourseNumber a b ≤ 0)%Z → (compareByCourseNumber b c ≤ 0)%Z →
   (compareByCourseNumber a c ≤ 0)%Z).
Proof.
  intros Ha%matchDigits_firstDigitRun Hb%matchDigits_firstDigitRun
         Hc%matchDigits_firstDigitRun.
  unfold compareByCourseNumber. rewrite Ha, Hb, Hc. simpl. split.
  - destruct (stringLess ra rb) eqn:Hab; [split; [done|]|].
    + intros ->. by rewrite stringLess_irrefl in Hab.
    + destruct (stringLess rb ra) eqn:Hba; [split; [done|]|].
      * intros ->. by rewrite stringLess_irrefl in Hba.
      * split; [intros _; by apply stringLess_total|done].
  - destruct (stringLess ra rb) eqn:Hab.
    + intros _. destruct (stringLess rb rc) eqn:Hbc.
      * intros _. by rewrite (stringLess_trans _ _ _ Hab Hbc).
      * destruct (stringLess rc rb) eqn:Hcb; [done|]. intros _.
        rewrite <- (stringLess_total _ _ Hbc Hcb). by rewrite Hab.
    + destruct (stringLess rb ra) eqn:Hba; [done|]. intros _.
      rewrite (stringLess_total _ _ Hab Hba).
      destruct (stringLess rb rc); [done|]. by destruct (stringLess rc rb).
Qed.

Lemma compare_consistent_with_digits_witness :
  (compareByCourseNumber cmput10 cmput2 = 0%Z ↔ "10" = "2") ∧
  ((compareByCourseNumber cmput10 cmput2 ≤ 0)%Z →
   (compareByCourseNumber cmput2 {| asString := "CMPUT 201" |} ≤ 0)%Z →
   (compareByCourseNumber cmput10 {| asString := "CMPUT 201" |} ≤ 0)%Z).
Proof.
  apply (compare_consistent_with_digits cmput10 cmput2 {| asString := "CMPUT 201" |}
           "10" "2" "201").
  - exists "CMPUT ", "". by vm_compute.
  - exists "CMPUT ", "". by vm_compute.
  - exists "CMPUT ", "". by vm_compute.
Defined.

Section WatcherQueue.

Variable toUpperCase : string -> string.

Lemma advanceTo_queued (t : Z) (startup : bool) (watch : option Timer) (st : WatcherState) :
  queued startup watch st →
  queued (startup && bool_decide (t < 1000)%Z)
         (match watch with
          | Some tm => if decide (due tm ≤ t)%Z then None else Some tm
          | None => None
          end)
         (advanceTo t st) ∧
  settled (filterText (advanceTo t st))
          (startup && bool_decide (t < 1000)%Z)
          (match watch with
           | Some tm => if decide (due tm ≤ t)%Z then None else Some tm
           | None => None
           end)
  = settled (filterText st) startup watch.
Proof.
  destruct st as [shown timeout queue next].
  unfold queued, advanceTo, queueOf, settled. simpl.
  intros (-> & Hn & Hw).
  destruct startup, watch as [tm|]; simpl;
    repeat (first [case_decide | case_bool_decide]; simpl in *; try lia);
    rewrite ?filter_cons, ?filter_nil; simpl;
    repeat (first [case_decide | case_bool_decide]; simpl in *; try lia);
    rewrite ?filter_cons, ?filter_nil; simpl;
    repeat (first [case_decide | case_bool_decide]; simpl in *; try lia);
    try (destruct Hw as [Hw1 Hw2]); try done; try congruence.
  all: repeat split; rewrite ?filter_cons, ?filter_nil; simpl;
    repeat case_decide; try done; try congruence.
Qed.

Lemma watchSearchBox_queued (now : Z) (text : string) (startup : bool)
    (watch : option Timer) (st : WatcherState) :
  queued startup watch st →
  queued startup
         (Some {| promise := next_promise st; due := now + 200;
                  assigns := toUpperCase text |})
         (watchSearchBox toUpperCase now (VString text) st) ∧
  filterText (watchSearchBox toUpperCase now (VString text) st) = filterText st.
Proof.
  destruct st as [shown timeout queue next].
  unfold queued, watchSearchBox, queueOf. simpl.
  intros (-> & Hn & Hw). split; [|done]. split; [|done].
  destruct startup, watch as [tm|]; simpl.
  - destruct Hw as [-> Hp]. case_decide; rewrite !filter_cons, filter_nil; simpl;
      repeat case_decide; simpl; repeat case_decide; try done; try lia.
  - destruct timeout as [p|]; simpl; rewrite ?filter_cons, ?filter_nil; simpl;
      repeat case_decide; simpl; repeat case_decide; try done; try lia; congruence.
  - destruct Hw as [-> Hp]. rewrite !filter_cons, filter_nil; simpl.
    repeat case_decide; try done.
  - by destruct timeout.
Qed.

Lemma lastString_later (rest : list (Z * value)) : ∀ (t : Z) (val : value) (t' : Z) (text : string),
  inOrder ((t, val) :: rest) → lastString rest = Some (t', text) → (t ≤ t')%Z.
Proof.
  induction rest as [|[t1 val1] rest IH]; intros t val t' text [Hle Hin]; [done|].
  cbn [lastString]. destruct (lastString rest) as [[t2 text2]|] eqn:Hl.
  - intros [= -> ->]. specialize (IH t1 val1 t' text Hin eq_refl). lia.
  - destruct val1; [|done..]. intros [= -> ->]. done.
Qed.

Lemma runWatcher_settles (changes : list (Z * value)) (tEnd : Z) :
  (1000 ≤ tEnd)%Z →
  ∀ (startup : bool) (watch : option Timer) (st : WatcherState),
    queued startup watch st →
    inOrder changes →
    match lastString changes with
    | Some (t, _) => (t + 200 ≤ tEnd)%Z
    | None => match watch with Some tm => (due tm ≤ tEnd)%Z | None => True end
    end →
    filterText (runWatcher toUpperCase changes tEnd st) =
    match lastString changes with
    | Some (t, text) =>
        Some (if decide (startup = true ∧ t + 200 < 1000)%Z then "" else toUpperCase text)
    | None => settled (filterText st) startup watch
    end.
Proof.
  intros HtEnd. induction changes as [|[t val] rest IH];
    intros startup watch st Hq Hin Hend.
  - cbn [runWatcher lastString] in *.
    destruct (advanceTo_queued tEnd startup watch st Hq) as [_ Hs].
    rewrite <- Hs.
    rewrite bool_decide_eq_false_2 by lia. rewrite andb_false_r.
    destruct watch as [tm|]; [|done]. by rewrite decide_True by done.
  - cbn [runWatcher].
    destruct (advanceTo_queued t startup watch st Hq) as [Hq1 Hs1].
    set (startup1 := startup && bool_decide (t < 1000)%Z) in *.
    set (watch1 := match watch with
                   | Some tm => if decide (due tm ≤ t)%Z then None else Some tm
                   | None => None
                   end) in *.
    assert (Hin' : inOrder rest) by (by destruct Hin).
    cbn [lastString] in *.
    destruct (lastString rest) as [[t' text']|] eqn:Hl.
    + pose proof (lastString_later rest t val t' text' Hin Hl) as Hle.
      assert (Hsame : ∀ w2 st2, queued startup1 w2 st2 →
                filterText (runWatcher toUpperCase rest tEnd st2) =
                Some (if decide (startup = true ∧ t' + 200 < 1000)%Z
                      then "" else toUpperCase text')).
      { intros w2 st2 Hq2. rewrite (IH startup1 w2 st2 Hq2 Hin' Hend).
        f_equal. unfold startup1.
        destruct startup; simpl; repeat (first [case_decide | case_bool_decide]);
          try done; try lia; naive_solver lia. }
      destruct val as [text|n|ref].
      * destruct (watchSearchBox_queued t text _ _ _ Hq1) as [Hq2 _].
        by eapply Hsame.
      * cbn [watchSearchBox]. by eapply Hsame.
      * cbn [watchSearchBox]. by eapply Hsame.
    + destruct val as [text|n|ref].
      * destruct (watchSearchBox_queued t text _ _ _ Hq1) as [Hq2 Hf2].
        rewrite (IH _ _ _ Hq2 Hin') by (simpl; lia).
        unfold settled, startup1. simpl.
        destruct startup; simpl; repeat (first [case_decide | case_bool_decide]);
          try done; try lia; naive_solver lia.
      * cbn [watchSearchBox]. rewrite (IH _ _ _ Hq1 Hin'); [done|].
        unfold watch1. destruct watch as [tm|]; [|done]. by case_decide.
      * cbn [watchSearchBox]. rewrite (IH _ _ _ Hq1 Hin'); [done|].
        unfold watch1. destruct watch as [tm|]; [|done]. by case_decide.
Qed.

End WatcherQueue.

(** The filter of the accordion, once the start-up timer and the last
    timer of the watcher have run: it is the upper-case text of the last
    change to a string, unless that change came less than 800 ms after
    the start, in which case the start-up timer, running at 1000 ms,
    has replaced it by the empty string. Changes to a value that is no
    string change nothing. *)
Theorem watcher_settles (toUpperCase : string -> string)
    (changes : list (Z * value)) (tEnd : Z) :
  inOrder changes →
  (1000 ≤ tEnd)%Z →
  match lastString changes with
  | Some (t, _) => (t + 200 ≤ tEnd)%Z
  | None => True
  end →
  filterText (runWatcher toUpperCase changes tEnd watcherInit) =
  Some match lastString changes with
       | Some (t, text) => if decide (t + 200 < 1000)%Z then "" else toUpperCase text
       | None => ""
       end.
Proof.
  intros Hin HtEnd Hend.
  rewrite (runWatcher_settles toUpperCase changes tEnd HtEnd true None watcherInit).
  - destruct (lastString changes) as [[t text]|]; [|done].
    f_equal. destruct (decide (t + 200 < 1000)%Z) as [Hlt|Hge].
    + by rewrite decide_True by done.
    + by rewrite decide_False by (intros [_ ?]; done).
  - by vm_compute.
  - done.
  - by destruct (lastString changes).
Qed.

Lemma watcher_settles_witness :
  filterText (runWatcher (fun text => text)
                [(100%Z, VString "CMPUT"); (300%Z, VNumber 5)] 1000 watcherInit)
    = Some "" ∧
  filterText (runWatcher (fun text => text)
                [(100%Z, VString "CMPUT"); (900%Z, VString "MATH")] 1100 watcherInit)
    = Some "MATH".
Proof.
  split.
  - apply (watcher_settles (fun text => text)
             [(100%Z, VString "CMPUT"); (300%Z, VNumber 5)] 1000);
      simpl; lia.
  - apply (watcher_settles (fun text => text)
             [(100%Z, VString "CMPUT"); (900%Z, VString "MATH")] 1100);
      simpl; lia.
Defined.

End AccordionMore.
